(** * Session and managed-transaction orchestration of the Neo4j Python driver

    Shallow embedding of [neo4j/work/simple.py]: the [Session] class
    (auto-commit [run], explicit transactions, [close], the managed retry loop
    [_run_transaction]) and the module functions [retry_delay_generator] and
    [is_retriable_transient_error].

    The collaborators of the module (connection pool, connection, [Result],
    [Transaction], the unit of work, the clock and the random source) live in
    other modules.  Every call into one of them is represented by its observable
    outcome: the value it returns or the exception it raises, the fields of the
    object it leaves behind, and whether the completion callback the session
    handed to the object ([_result_closed], [_transaction_closed]) ran during
    the call.  The operations of the session take these outcomes as arguments.

    Arguments the session only forwards to a collaborator (query parameters,
    metadata, timeout, fetch size, hydrant) have no effect on the session and
    are left out; the bookmarks and the access mode sent with [_run] and
    [_begin] are kept in the log.

    The retry delays are Python floats: the delay generator is computed on
    binary64 floating-point numbers, with the operations of the source in
    their order, each correctly rounded.  Clock readings and the retry budget
    they are compared with are rational numbers. *)

From Stdlib Require Import String List Bool Arith ZArith QArith Lia.
From Stdlib Require Import PrimFloat.
Import ListNotations.

(** A decimal literal such as [0.2] stands for the nearest binary64 number,
    as it does in Python. *)
Set Warnings "-inexact-float".

Set Implicit Arguments.
Open Scope string_scope.

(** ** Exceptions *)

(** The exception classes the module raises or catches.  [Neo4jError] stands
    for a server error that is not transient, [OtherException] for any other
    subclass of [Exception], [BaseExceptionOnly] for an exception outside
    [Exception] (KeyboardInterrupt, SystemExit). *)
Inductive exn : Type :=
| ValueError (msg : string)
| TypeError (msg : string)
| AttributeError (msg : string)
| TransactionError (msg : string)
| ServiceUnavailable (msg : string)
| SessionExpired (msg : string)
| TransientError (code : string) (msg : string)
| Neo4jError (code : string) (msg : string)
| OtherException (name : string)
| BaseExceptionOnly (name : string).

(** [except Exception] *)
Definition isinstance_Exception (e : exn) : bool :=
  match e with
  | BaseExceptionOnly _ => false
  | _ => true
  end.

(** [except (ServiceUnavailable, SessionExpired)] *)
Definition is_connectivity_error (e : exn) : bool :=
  match e with
  | ServiceUnavailable _ | SessionExpired _ => true
  | _ => false
  end.

(** [except TransientError] *)
Definition isinstance_TransientError (e : exn) : bool :=
  match e with
  | TransientError _ _ => true
  | _ => false
  end.

(** The four [except ...: pass] clauses of [close]; a transient error is a
    [Neo4jError]. *)
Definition swallowed_by_close (e : exn) : bool :=
  match e with
  | Neo4jError _ _ | TransientError _ _ => true
  | TransactionError _ => true
  | ServiceUnavailable _ => true
  | SessionExpired _ => true
  | _ => false
  end.

(** [error.args], as joined by the retry warning. *)
Definition args (e : exn) : list string :=
  match e with
  | ValueError m | TypeError m | AttributeError m | TransactionError m
  | ServiceUnavailable m | SessionExpired m => [m]
  | TransientError _ m | Neo4jError _ m => [m]
  | OtherException n | BaseExceptionOnly n => [n]
  end.

(** What [raise "hell"] does: a string is not an exception, the interpreter
    raises this [TypeError] in its place. *)
Definition raise_of_str : exn :=
  TypeError "exceptions must derive from BaseException".

(** [None.attr] *)
Definition NoneType_has_no (attr : string) : exn :=
  AttributeError ("'NoneType' object has no attribute '" ++ attr ++ "'").

(** ** Outcomes and the session monad *)

Inductive res (A : Type) : Type :=
| Ret (a : A)
| Raise (e : exn).
Arguments Ret {A} a.
Arguments Raise {A} e.

Inductive AccessMode := READ_ACCESS | WRITE_ACCESS.

(** A bookmark value as a transaction or result holds it: [None] or a string. *)
Definition Bookmark := option string.

(** Truth value of a bookmark in [if bookmark:]. *)
Definition truthy (b : Bookmark) : bool :=
  match b with
  | Some s => negb (String.eqb s EmptyString)
  | None => false
  end.

Record SessionConfig := {
  default_access_mode : AccessMode;
  database : option string;
  fetch_size : Z;
  connection_acquisition_timeout : Q;
  initial_retry_delay : float;
  retry_delay_multiplier : float;
  retry_delay_jitter_factor : float;
  max_transaction_retry_time : Q;
  bookmarks : list string
}.

(** A leased connection, by identity. *)
Definition Connection := nat.

(** The fields of a [Transaction] the session reads. *)
Record Transaction := {
  tx_id : nat;
  tx_closed : bool;
  tx_bookmark : Bookmark
}.

(** The fields of a [Result] the session reads. *)
Record Result := {
  result_id : nat;
  result_bookmark : Bookmark
}.

Record Session := {
  _config : SessionConfig;
  _connection : option Connection;
  _transaction : option Transaction;
  _autoResult : option Result;
  _bookmarks : list string;
  _state : option string
}.

(** Calls into the collaborators, in the order they are made. *)
Inductive Event : Type :=
| EvAcquire (mode : AccessMode) (db : option string)
| EvSendAll
| EvFetchAll
| EvConnRollback
| EvDetach
| EvConsume
| EvResultRun (bms : list string)
| EvBegin (bms : list string) (mode : AccessMode)
| EvClosedQuery
| EvCommit
| EvRollback
| EvTxClose
| EvUnitOfWork
| EvWarning (delay : float) (text : string)
| EvSleep (delay : float).

(** The session, the calls made so far, and the connections whose [in_use]
    flag the session has cleared. *)
Record World := {
  self : Session;
  log : list Event;
  released : list Connection
}.

Definition M (A : Type) : Type := World -> World * res A.

Definition ret {A} (a : A) : M A := fun w => (w, Ret a).

Definition raise {A} (e : exn) : M A := fun w => (w, Raise e).

Definition bind {A B} (m : M A) (k : A -> M B) : M B :=
  fun w =>
    match m w with
    | (w', Ret a) => k a w'
    | (w', Raise e) => (w', Raise e)
    end.

Declare Scope session_scope.
Delimit Scope session_scope with session.
Notation "x <- m ;; k" := (bind m (fun x => k))
  (at level 61, m at next level, right associativity) : session_scope.
Notation "m ;; k" := (bind m (fun _ => k))
  (at level 61, right associativity) : session_scope.
Open Scope session_scope.

(** [try: body finally: fin] -- an exception of [fin] replaces the outcome of
    [body]. *)
Definition try_finally {A} (body : M A) (fin : M unit) : M A :=
  fun w =>
    match body w with
    | (w1, r) =>
        match fin w1 with
        | (w2, Ret _) => (w2, r)
        | (w2, Raise e) => (w2, Raise e)
        end
    end.

(** [try: body except <caught> as e: handler e] *)
Definition try_except {A} (body : M A) (caught : exn -> bool)
    (handler : exn -> M A) : M A :=
  fun w =>
    match body w with
    | (w1, Ret a) => (w1, Ret a)
    | (w1, Raise e) => if caught e then handler e w1 else (w1, Raise e)
    end.

(** [try: body except <caught> as e: handler e else: orelse] -- the [else]
    block runs outside the reach of the [except] clause. *)
Definition try_except_else {A B} (body : M A) (caught : exn -> bool)
    (handler : exn -> M B) (orelse : A -> M B) : M B :=
  fun w =>
    match body w with
    | (w1, Ret a) => orelse a w1
    | (w1, Raise e) => if caught e then handler e w1 else (w1, Raise e)
    end.

Definition get {A} (f : Session -> A) : M A := fun w => (w, Ret (f (self w))).

Definition modify (f : Session -> Session) : M unit :=
  fun w =>
    ({| self := f (self w); log := log w; released := released w |}, Ret tt).

Definition emit (ev : Event) : M unit :=
  fun w =>
    ({| self := self w; log := (log w ++ [ev])%list;
        released := released w |}, Ret tt).

(** [connection.in_use = False] *)
Definition clear_in_use (c : Connection) : M unit :=
  fun w =>
    ({| self := self w; log := log w;
        released := (released w ++ [c])%list |}, Ret tt).

Definition when (b : bool) (m : M unit) : M unit := if b then m else ret tt.

Definition set_connection (c : option Connection) (s : Session) : Session :=
  {| _config := _config s; _connection := c; _transaction := _transaction s;
     _autoResult := _autoResult s; _bookmarks := _bookmarks s;
     _state := _state s |}.

Definition set_transaction (t : option Transaction) (s : Session) : Session :=
  {| _config := _config s; _connection := _connection s; _transaction := t;
     _autoResult := _autoResult s; _bookmarks := _bookmarks s;
     _state := _state s |}.

Definition set_autoResult (r : option Result) (s : Session) : Session :=
  {| _config := _config s; _connection := _connection s;
     _transaction := _transaction s; _autoResult := r;
     _bookmarks := _bookmarks s; _state := _state s |}.

Definition set_bookmarks (b : list string) (s : Session) : Session :=
  {| _config := _config s; _connection := _connection s;
     _transaction := _transaction s; _autoResult := _autoResult s;
     _bookmarks := b; _state := _state s |}.

Definition set_state (st : option string) (s : Session) : Session :=
  {| _config := _config s; _connection := _connection s;
     _transaction := _transaction s; _autoResult := _autoResult s;
     _bookmarks := _bookmarks s; _state := st |}.

(** Truth value of an optional object reference ([if self._connection:]);
    the objects themselves are always true. *)
Definition is_set {A} (o : option A) : bool :=
  match o with Some _ => true | None => false end.

Definition lift {A} (r : res A) : M A := fun w => (w, r).

(** ** Session: connection lease, bookmarks, completion callbacks *)

Definition __init__ (session_config : SessionConfig) : Session :=
  {| _config := session_config; _connection := None; _transaction := None;
     _autoResult := None; _bookmarks := bookmarks session_config;
     _state := None |}.

Definition _disconnect : M unit :=
  c <- get _connection ;;
  match c with
  | Some cx => clear_in_use cx ;; modify (set_connection None)
  | None => ret tt
  end.

Definition _collect_bookmark (bookmark : Bookmark) : M unit :=
  match bookmark with
  | Some b => if truthy bookmark then modify (set_bookmarks [b]) else ret tt
  | None => ret tt
  end.

(** The completion callback handed to every [Result] of the session. *)
Definition _result_closed : M unit :=
  r <- get _autoResult ;;
  match r with
  | Some r0 =>
      _collect_bookmark (result_bookmark r0) ;;
      modify (set_autoResult None) ;;
      _disconnect
  | None => ret tt
  end.

(** The completion callback handed to every [Transaction] of the session. *)
Definition _transaction_closed : M unit :=
  t <- get _transaction ;;
  match t with
  | Some t0 =>
      _collect_bookmark (tx_bookmark t0) ;;
      modify (set_transaction None) ;;
      _disconnect
  | None => ret tt
  end.

Definition has_transaction : M bool :=
  t <- get _transaction ;; ret (is_set t).

(** ** Calls into the collaborators *)

(** Outcome of a method call on a [Result]: the bookmark the object holds when
    the call ends, whether its completion callback ran during the call, and
    what the call returned or raised. *)
Record ResultCall (R : Type) := {
  rc_bookmark : Bookmark;
  rc_fired : bool;
  rc_ret : res R
}.

(** Outcome of a method call on a [Transaction] (or of the unit of work, which
    acts on the transaction it is given). *)
Record TxCall (R : Type) := {
  tc_closed : bool;
  tc_bookmark : Bookmark;
  tc_fired : bool;
  tc_ret : res R
}.

(** Outcome of a method call on the connection; pending responses it reads
    may complete the outstanding result, whose callback then runs. *)
Record ConnCall := {
  cc_fired : bool;
  cc_ret : res unit
}.

(** [self._autoResult.<attr>(...)] *)
Definition call_autoResult {R} (ev : Event) (attr : string)
    (o : ResultCall R) : M R :=
  r <- get _autoResult ;;
  match r with
  | None => raise (NoneType_has_no attr)
  | Some r0 =>
      emit ev ;;
      modify (set_autoResult
                (Some {| result_id := result_id r0;
                         result_bookmark := rc_bookmark o |})) ;;
      when (rc_fired o) _result_closed ;;
      lift (rc_ret o)
  end.

(** [self._connection.<attr>(...)] *)
Definition call_connection (ev : Event) (attr : string) (o : ConnCall)
    : M unit :=
  c <- get _connection ;;
  match c with
  | None => raise (NoneType_has_no attr)
  | Some _ =>
      emit ev ;;
      when (cc_fired o) _result_closed ;;
      lift (cc_ret o)
  end.

(** The call mutates the transaction object; the session sees the new fields
    when [self._transaction] is that object. *)
Definition update_transaction {R} (t : Transaction) (o : TxCall R)
    (s : Session) : Session :=
  match _transaction s with
  | Some t' =>
      if Nat.eqb (tx_id t') (tx_id t)
      then set_transaction
             (Some {| tx_id := tx_id t; tx_closed := tc_closed o;
                      tx_bookmark := tc_bookmark o |}) s
      else s
  | None => s
  end.

(** [tx.<attr>(...)] for a reference [tx] that may be [None]. *)
Definition call_tx {R} (tx : option Transaction) (ev : Event) (attr : string)
    (o : TxCall R) : M R :=
  match tx with
  | None => raise (NoneType_has_no attr)
  | Some t =>
      emit ev ;;
      modify (update_transaction t o) ;;
      when (tc_fired o) _transaction_closed ;;
      lift (tc_ret o)
  end.

Record ConnectEnv := {
  ce_send_all : ConnCall;
  ce_fetch_all : ConnCall;
  ce_acquire : res Connection
}.

Definition _connect (access_mode : option AccessMode) (db : option string)
    (env : ConnectEnv) : M unit :=
  cfg <- get _config ;;
  let access_mode :=
    match access_mode with
    | None => default_access_mode cfg
    | Some m => m
    end in
  c <- get _connection ;;
  when (is_set c)
    (call_connection EvSendAll "send_all" (ce_send_all env) ;;
     call_connection EvFetchAll "fetch_all" (ce_fetch_all env) ;;
     _disconnect) ;;
  emit (EvAcquire access_mode db) ;;
  cx <- lift (ce_acquire env) ;;
  modify (set_connection (Some cx)).

Record OpenEnv := {
  oe_connect : ConnectEnv;
  oe_new_tx : nat;
  oe_begin : TxCall unit
}.

Definition _open_transaction (access_mode : AccessMode) (db : option string)
    (env : OpenEnv) : M unit :=
  _connect (Some access_mode) db (oe_connect env) ;;
  modify (set_transaction
            (Some {| tx_id := oe_new_tx env; tx_closed := false;
                     tx_bookmark := None |})) ;;
  tx <- get _transaction ;;
  bms <- get _bookmarks ;;
  call_tx tx (EvBegin bms access_mode) "_begin" (oe_begin env).

(** ** Session: public operations *)

(** The [query] argument of [run]: a string, a [Query] object, or a value of
    another type with its truth value. *)
Inductive QueryArg :=
| QueryStr (text : string)
| QueryObj (text : string)
| QueryOther (truth : bool).

Definition query_truth (q : QueryArg) : bool :=
  match q with
  | QueryStr s => negb (String.eqb s EmptyString)
  | QueryObj _ => true
  | QueryOther b => b
  end.

Definition is_str_or_Query (q : QueryArg) : bool :=
  match q with
  | QueryOther _ => false
  | _ => true
  end.

Record RunEnv := {
  re_detach : ResultCall unit;
  re_connect : ConnectEnv;
  re_new_result : nat;
  re_run : ResultCall unit
}.

Definition run (query : QueryArg) (env : RunEnv) : M (option Result) :=
  if negb (query_truth query)
  then raise (ValueError "Cannot run an empty query")
  else if negb (is_str_or_Query query)
  then raise (TypeError "query must be a string or a Query instance")
  else
    tx <- get _transaction ;;
    if is_set tx then raise raise_of_str
    else
      ar <- get _autoResult ;;
      when (is_set ar)
        (call_autoResult EvDetach "_detach" (re_detach env)) ;;
      c <- get _connection ;;
      cfg <- get _config ;;
      when (negb (is_set c))
        (_connect (Some (default_access_mode cfg)) (database cfg)
           (re_connect env)) ;;
      cx <- get _connection ;;
      match cx with
      | None => raise (NoneType_has_no "PROTOCOL_VERSION")
      | Some _ =>
          modify (set_autoResult
                    (Some {| result_id := re_new_result env;
                             result_bookmark := None |})) ;;
          bms <- get _bookmarks ;;
          call_autoResult (EvResultRun bms) "_run" (re_run env) ;;
          get _autoResult
      end.

Definition next_bookmarks (detach : ResultCall unit) : M (list string) :=
  ar <- get _autoResult ;;
  when (is_set ar) (call_autoResult EvDetach "_detach" detach) ;;
  tx <- get _transaction ;;
  match tx with
  | Some t =>
      when (tx_closed t)
        (_collect_bookmark (tx_bookmark t) ;; modify (set_transaction None))
  | None => ret tt
  end ;;
  get _bookmarks.

Record BeginEnv := {
  be_detach : ResultCall unit;
  be_open : OpenEnv
}.

Definition begin_transaction (env : BeginEnv) : M (option Transaction) :=
  ar <- get _autoResult ;;
  when (is_set ar) (call_autoResult EvDetach "_detach" (be_detach env)) ;;
  tx <- get _transaction ;;
  if is_set tx
  then raise (TransactionError "Explicit transaction already open")
  else
    cfg <- get _config ;;
    _open_transaction (default_access_mode cfg) (database cfg) (be_open env) ;;
    get _transaction.

Definition commit_transaction (commit : TxCall Bookmark) : M Bookmark :=
  tx <- get _transaction ;;
  if negb (is_set tx)
  then raise (TransactionError "No transaction to commit")
  else try_finally (call_tx tx EvCommit "commit" commit) _transaction_closed.

Definition rollback_transaction (rollback : TxCall unit) : M unit :=
  tx <- get _transaction ;;
  if negb (is_set tx)
  then raise (TransactionError "No transaction to rollback")
  else try_finally (call_tx tx EvRollback "rollback" rollback)
         _transaction_closed.

Definition state_is (st : option string) (name : string) : bool :=
  match st with
  | Some s => String.eqb s name
  | None => false
  end.

Record CloseEnv := {
  cl_consume : ResultCall unit;
  cl_closed : TxCall bool;
  cl_rollback : ConnCall;
  cl_send_all : ConnCall;
  cl_fetch_all : ConnCall
}.

Definition close (env : CloseEnv) : M unit :=
  c <- get _connection ;;
  when (is_set c)
    (ar <- get _autoResult ;;
     when (is_set ar)
       (st <- get _state ;;
        when (negb (state_is st "error_state"))
          (try_except
             (call_autoResult EvConsume "consume" (cl_consume env) ;;
              r <- get _autoResult ;;
              match r with
              | None => raise (NoneType_has_no "_bookmark")
              | Some r0 => _collect_bookmark (result_bookmark r0)
              end)
             isinstance_Exception
             (fun _ =>
                modify (set_autoResult None) ;;
                modify (set_state (Some "error_state"))))) ;;
     tx <- get _transaction ;;
     when (is_set tx)
       (closed <- call_tx tx EvClosedQuery "closed" (cl_closed env) ;;
        when (negb closed)
          (call_connection EvConnRollback "rollback" (cl_rollback env)) ;;
        modify (set_transaction None)) ;;
     try_finally
       (try_except
          (call_connection EvSendAll "send_all" (cl_send_all env) ;;
           call_connection EvFetchAll "fetch_all" (cl_fetch_all env))
          swallowed_by_close
          (fun _ => ret tt))
       _disconnect ;;
     modify (set_state None)).

Definition __enter__ : M unit := ret tt.

(** [exception_type] is [None] when the [with] block ended normally. *)
Definition __exit__ (exception_type : option string) (env : CloseEnv)
    : M unit :=
  (if is_set exception_type
   then modify (set_state (Some "error_state"))
   else modify (set_state (Some "graceful_close_state"))) ;;
  close env.

(** ** Retry delay generator *)

(** The state of the generator between two [yield]s: the local [delay] and
    the two parameters it keeps, all of them floats. *)
Record DelayGenerator := {
  delay : float;
  multiplier : float;
  jitter_factor : float
}.

Definition retry_delay_generator
    (initial_delay multiplier jitter_factor : float) : DelayGenerator :=
  {| delay := initial_delay; multiplier := multiplier;
     jitter_factor := jitter_factor |}.

(** [next(retry_delay)]: one turn of the [while True] loop, where [random] is
    the float [random()] returns in that turn.  The operations are those of
    the source, in binary64: [jitter_factor * delay], the subtraction, the
    two multiplications of [2 * jitter * random()], the addition, and
    [delay *= multiplier].  None of them raises, so the turn always
    yields. *)
Definition next (g : DelayGenerator) (random : float)
    : float * DelayGenerator :=
  let jitter := (jitter_factor g * delay g)%float in
  ((delay g - jitter + 2 * jitter * random)%float,
   {| delay := (delay g * multiplier g)%float; multiplier := multiplier g;
      jitter_factor := jitter_factor g |}).

(** The [k]-th value the generator emits ([k] from 0) when the [i]-th call of
    [random()] returns [randoms i]. *)
Fixpoint emitted (g : DelayGenerator) (randoms : nat -> float) (k : nat)
    : float :=
  match k with
  | O => fst (next g (randoms O))
  | S k' => emitted (snd (next g (randoms O))) (fun i => randoms (S i)) k'
  end.

(** The state of the generator after [k] values. *)
Fixpoint advanced (g : DelayGenerator) (randoms : nat -> float) (k : nat)
    : DelayGenerator :=
  match k with
  | O => g
  | S k' => advanced (snd (next g (randoms O))) (fun i => randoms (S i)) k'
  end.

(** [time.sleep(delay)] refuses a negative delay and a NaN. *)
Definition sleep_rejects (d : float) : option exn :=
  if is_nan d then Some (ValueError "Invalid value NaN (not a number)")
  else if (d <? 0)%float
  then Some (ValueError "sleep length must be non-negative")
  else None.

(** ** Transient-error classification *)

Definition not_retriable_codes : list string :=
  ["Neo.TransientError.Transaction.Terminated";
   "Neo.TransientError.Transaction.LockClientStopped"].

(** [error.code]; the function below is only applied to a [TransientError]. *)
Definition code (error : exn) : option string :=
  match error with
  | TransientError c _ | Neo4jError c _ => Some c
  | _ => None
  end.

Definition is_retriable_transient_error (error : exn) : bool :=
  match code error with
  | Some c => negb (existsb (String.eqb c) not_retriable_codes)
  | None => true
  end.

(** ** Managed transactions: the retry loop *)

Section ManagedTransaction.

(** The type of the value the unit of work returns. *)
Variable V : Type.

(** What the collaborators do during one turn of the retry loop: opening the
    transaction, the unit of work, [tx.rollback()], [tx.commit()],
    [tx._close()], then the clock reading [t1] and, if the loop goes on, the
    [random()] value the delay generator draws, what building and logging
    the warning does, and what [sleep] does with a delay it accepts. *)
Record Attempt := {
  at_open : OpenEnv;
  at_unit_of_work : TxCall V;
  at_rollback : TxCall unit;
  at_commit : TxCall Bookmark;
  at_close : TxCall unit;
  at_clock : Q;
  at_random : float;
  at_warning : res unit;
  at_sleep : res unit
}.

(** [unit_of_work(tx, *args, **kwargs)]: user code acting on the transaction
    it is given. *)
Definition call_unit_of_work (tx : option Transaction) (o : TxCall V)
    : M V :=
  emit EvUnitOfWork ;;
  match tx with
  | Some t =>
      modify (update_transaction t o) ;;
      when (tc_fired o) _transaction_closed
  | None => ret tt
  end ;;
  lift (tc_ret o).

(** The inner [try ... except Exception ... else ... finally] of the loop
    body, for the transaction [tx]. *)
Definition work (tx : option Transaction) (a : Attempt) : M V :=
  try_finally
    (try_except_else
       (call_unit_of_work tx (at_unit_of_work a))
       isinstance_Exception
       (fun e => call_tx tx EvRollback "rollback" (at_rollback a) ;; raise e)
       (fun result =>
          call_tx tx EvCommit "commit" (at_commit a) ;; ret result))
    (call_tx tx EvTxClose "_close" (at_close a)).

(** The first statement of the loop body. *)
Definition open_attempt (access_mode : AccessMode) (a : Attempt) : M unit :=
  cfg <- get _config ;;
  _open_transaction access_mode (database cfg) (at_open a).

(** The body of the outer [try] of the loop. *)
Definition attempt (access_mode : AccessMode) (a : Attempt) : M V :=
  open_attempt access_mode a ;;
  tx <- get _transaction ;;
  work tx a.

(** The [except] clauses of the outer [try]: [Some errors'] when the error
    is appended to [errors], [None] when it propagates. *)
Definition record_error (errors : list exn) (error : exn)
    : option (list exn) :=
  if is_connectivity_error error then Some (errors ++ [error])%list
  else if isinstance_TransientError error then
    if is_retriable_transient_error error
    then Some (errors ++ [error])%list
    else None
  else None.

(** [t1 - t0 > self._config.max_transaction_retry_time] *)
Definition budget_exceeded (cfg : SessionConfig) (t0 t1 : Q) : bool :=
  negb (Qle_bool (t1 - t0) (max_transaction_retry_time cfg)).

(** The statements after the loop. *)
Definition raise_after_loop (errors : list exn) : res V :=
  match errors with
  | [] => Raise (ServiceUnavailable "Transaction failed")
  | e :: es => Raise (last errors e)
  end.

(** The pause between two turns: the warning, then the sleep, both outside
    the [try] of the loop.  [warning] is what the statement [log.warning(...)]
    does: the logger is a collaborator, and the [join] over the arguments of
    the last error, strings in this model, raises TypeError when one of them
    is not a string.  [sleep] is a collaborator too: it raises ValueError for
    a delay it rejects, and otherwise does what [slept] says. *)
Definition warning_text (errors : list exn) : string :=
  String.concat "; " (args (last errors (ServiceUnavailable EmptyString))).

Definition warn_and_sleep (d : float) (errors : list exn)
    (warning slept : res unit) : M unit :=
  emit (EvWarning d (warning_text errors)) ;;
  lift warning ;;
  emit (EvSleep d) ;;
  match sleep_rejects d with
  | Some e => raise e
  | None => lift slept
  end.

(** The session after a pause that returned: the warning and the sleep are
    in the log and nothing else has changed. *)
Definition paused (d : float) (text : string) (w : World) : World :=
  {| self := self w;
     log := (log w ++ [EvWarning d text; EvSleep d])%list;
     released := released w |}.

(** The [while True] loop; [script] lists what happens in the successive
    turns, and the loop has no outcome ([None]) when it is still running at
    the end of the script. *)
Fixpoint retry_loop (access_mode : AccessMode) (t0 : Q)
    (script : list Attempt) (errors : list exn)
    (retry_delay : DelayGenerator) (w : World)
    : option (World * res V) :=
  match script with
  | [] => None
  | a :: script' =>
      match attempt access_mode a w with
      | (w1, Ret result) => Some (w1, Ret result)
      | (w1, Raise error) =>
          match record_error errors error with
          | None => Some (w1, Raise error)
          | Some errors' =>
              if budget_exceeded (_config (self w1)) t0 (at_clock a)
              then Some (w1, raise_after_loop errors')
              else
                let d := next retry_delay (at_random a) in
                match
                  warn_and_sleep (fst d) errors' (at_warning a) (at_sleep a)
                    w1
                with
                | (w2, Ret _) =>
                    retry_loop access_mode t0 script' errors' (snd d) w2
                | (w2, Raise error') => Some (w2, Raise error')
                end
          end
      end
  end.

(** [callable] is [callable(unit_of_work)], [t0] the first clock reading. *)
Definition _run_transaction (access_mode : AccessMode) (callable : bool)
    (t0 : Q) (script : list Attempt) (w : World)
    : option (World * res V) :=
  if negb callable
  then Some (w, Raise (TypeError "Unit of work is not callable"))
  else
    let cfg := _config (self w) in
    retry_loop access_mode t0 script []
      (retry_delay_generator (initial_retry_delay cfg)
         (retry_delay_multiplier cfg) (retry_delay_jitter_factor cfg))
      w.

Definition read_transaction := _run_transaction READ_ACCESS.

Definition write_transaction := _run_transaction WRITE_ACCESS.

End ManagedTransaction.

(** ** The session invariant *)

(** Which of [_connection], [_transaction], [_autoResult] are set. *)
Definition Handles : Type := bool * bool * bool.

Definition handles_of (s : Session) : Handles :=
  (is_set (_connection s), is_set (_transaction s), is_set (_autoResult s)).

Definition handles (w : World) : Handles := handles_of (self w).

(** At most one of the result handle and the transaction handle is set, and
    the connection is set whenever one of them is. *)
Definition inv_h (h : Handles) : bool :=
  let '(c, t, a) := h in negb (a && t) && implb (a || t) c.

Definition session_inv (s : Session) : bool := inv_h (handles_of s).

(** The handles after the callback [_result_closed]. *)
Definition after_result_closed (h : Handles)
    : Handles :=
  let '(c, t, a) := h in if a then (false, t, false) else h.

(** The handles after the callback [_transaction_closed]. *)
Definition after_transaction_closed (h : Handles)
    : Handles :=
  let '(c, t, a) := h in if t then (false, false, a) else h.

(** [m] run in [w] ends with outcome [r] in a world whose handles are [h]. *)
Definition yields {A} (m : M A) (w : World) (r : res A)
    (h : Handles) : Prop :=
  exists w1, m w = (w1, r) /\ handles w1 = h.

(** [m] run in [w] ends with an outcome and handles that satisfy [P]. *)
Definition ends {A} (m : M A) (w : World)
    (P : res A -> Handles -> Prop) : Prop :=
  P (snd (m w)) (handles (fst (m w))).

Definition keeps_inv {A} (_ : res A) (h : Handles) : Prop :=
  inv_h h = true.

(** A call that drains a result ([_detach], [consume]) and returns normally
    has run the completion callback of the result. *)
Definition completes (o : ResultCall unit) : bool :=
  match rc_ret o with
  | Ret _ => rc_fired o
  | Raise _ => true
  end.

(** What [close] relies on when a result is outstanding: the session is not
    in the error state, where [close] leaves the result alone, and [consume]
    completes the result. *)
Definition close_contract (env : CloseEnv) (s : Session) : bool :=
  implb (is_set (_autoResult s))
    (negb (state_is (_state s) "error_state") && completes (cl_consume env)).

(** The public operations of a session, each with what the collaborators do
    during the call. *)
Inductive Operation : Type :=
| Run (query : QueryArg) (env : RunEnv)
| BeginTransaction (env : BeginEnv)
| CommitTransaction (commit : TxCall Bookmark)
| RollbackTransaction (rollback : TxCall unit)
| NextBookmarks (detach : ResultCall unit)
| Close (env : CloseEnv).

Definition perform (op : Operation) (w : World) : World :=
  match op with
  | Run query env => fst (run query env w)
  | BeginTransaction env => fst (begin_transaction env w)
  | CommitTransaction commit => fst (commit_transaction commit w)
  | RollbackTransaction rollback => fst (rollback_transaction rollback w)
  | NextBookmarks detach => fst (next_bookmarks detach w)
  | Close env => fst (close env w)
  end.

(** The assumption under which an operation clears an outstanding result. *)
Definition drains_complete (op : Operation) (s : Session) : bool :=
  match op with
  | BeginTransaction env =>
      implb (is_set (_autoResult s)) (completes (be_detach env))
  | Close env => close_contract env s
  | _ => true
  end.

(** ** Bookmarks *)

(** The Bookmark Store after [bookmark] has been collected into [store]. *)
Definition collected (bookmark : Bookmark) (store : list string)
    : list string :=
  match bookmark with
  | Some b => if String.eqb b EmptyString then store else [b]
  | None => store
  end.


(** The session [w'] is [w] after the transaction was finalized with
    [bookmark]: the handle is cleared, the connection [w] held is released
    and the bookmark is collected. *)
Definition finalized (bookmark : Bookmark) (w w' : World) : Prop :=
  _transaction (self w') = None /\
  _connection (self w') = None /\
  released w' =
    (released w ++
     match _connection (self w) with Some c => [c] | None => [] end)%list /\
  _bookmarks (self w') = collected bookmark (_bookmarks (self w)).

(** ** The log *)

Definition label (ev : Event) : string :=
  match ev with
  | EvAcquire _ _ => "acquire"
  | EvSendAll => "send_all"
  | EvFetchAll => "fetch_all"
  | EvConnRollback => "connection.rollback"
  | EvDetach => "_detach"
  | EvConsume => "consume"
  | EvResultRun _ => "_run"
  | EvBegin _ _ => "_begin"
  | EvClosedQuery => "closed"
  | EvCommit => "commit"
  | EvRollback => "rollback"
  | EvTxClose => "_close"
  | EvUnitOfWork => "unit_of_work"
  | EvWarning _ _ => "warning"
  | EvSleep _ => "sleep"
  end.

(** [m] only adds calls to the log. *)
Definition extends {A} (m : M A) : Prop :=
  forall w, exists l, log (fst (m w)) = (log w ++ l)%list.

(** ** Sample collaborators *)

Definition sample_config : SessionConfig :=
  {| default_access_mode := WRITE_ACCESS; database := None;
     fetch_size := 1000; connection_acquisition_timeout := 60;
     initial_retry_delay := 1; retry_delay_multiplier := 2;
     retry_delay_jitter_factor := 0.2; max_transaction_retry_time := 30;
     bookmarks := [] |}.

Definition new_world (cfg : SessionConfig) : World :=
  {| self := __init__ cfg; log := []; released := [] |}.

Definition quiet : ConnCall := {| cc_fired := false; cc_ret := Ret tt |}.

(** The pool hands out connection [c]. *)
Definition acquires (c : Connection) : ConnectEnv :=
  {| ce_send_all := quiet; ce_fetch_all := quiet; ce_acquire := Ret c |}.

(** The pool cannot reach the server. *)
Definition pool_down (msg : string) : ConnectEnv :=
  {| ce_send_all := quiet; ce_fetch_all := quiet;
     ce_acquire := Raise (ServiceUnavailable msg) |}.

(** The result is still streaming when the call returns. *)
Definition streaming : ResultCall unit :=
  {| rc_bookmark := None; rc_fired := false; rc_ret := Ret tt |}.

(** The call receives the end of the result, with bookmark [b]. *)
Definition completed (b : Bookmark) : ResultCall unit :=
  {| rc_bookmark := b; rc_fired := true; rc_ret := Ret tt |}.

(** The transaction stays open during the call. *)
Definition stays_open {R} (r : res R) : TxCall R :=
  {| tc_closed := false; tc_bookmark := None; tc_fired := false;
     tc_ret := r |}.

(** The call closes the transaction, with bookmark [b]. *)
Definition closes {R} (b : Bookmark) (r : res R) : TxCall R :=
  {| tc_closed := true; tc_bookmark := b; tc_fired := true; tc_ret := r |}.

(** The transaction was closed before the call. *)
Definition already_closed {R} (b : Bookmark) (r : res R) : TxCall R :=
  {| tc_closed := true; tc_bookmark := b; tc_fired := false; tc_ret := r |}.

Definition opens (c : Connection) (tx : nat) : OpenEnv :=
  {| oe_connect := acquires c; oe_new_tx := tx;
     oe_begin := stays_open (Ret tt) |}.

(** A turn in which the unit of work raises [e]. *)
Definition failing_turn (c : Connection) (tx : nat) (e : exn) (clock : Q)
    : Attempt nat :=
  {| at_open := opens c tx; at_unit_of_work := stays_open (Raise e);
     at_rollback := closes None (Ret tt);
     at_commit := closes None (Ret None);
     at_close := already_closed None (Ret tt);
     at_clock := clock; at_random := 0.5; at_warning := Ret tt;
     at_sleep := Ret tt |}.

(** A turn in which the unit of work returns [v] and the commit yields [b]. *)
Definition succeeding_turn (c : Connection) (tx : nat) (v : nat)
    (b : Bookmark) (clock : Q) : Attempt nat :=
  {| at_open := opens c tx; at_unit_of_work := stays_open (Ret v);
     at_rollback := closes None (Ret tt);
     at_commit := closes b (Ret b);
     at_close := already_closed b (Ret tt);
     at_clock := clock; at_random := 0.5; at_warning := Ret tt;
     at_sleep := Ret tt |}.

(** A turn in which no connection can be acquired. *)
Definition unreachable_turn (msg : string) (clock : Q) : Attempt nat :=
  {| at_open := {| oe_connect := pool_down msg; oe_new_tx := 0;
                   oe_begin := stays_open (Ret tt) |};
     at_unit_of_work := stays_open (Ret 0%nat);
     at_rollback := closes None (Ret tt);
     at_commit := closes None (Ret None);
     at_close := already_closed None (Ret tt);
     at_clock := clock; at_random := 0.5; at_warning := Ret tt;
     at_sleep := Ret tt |}.

Definition run_env (c : Connection) (r : nat) : RunEnv :=
  {| re_detach := completed None; re_connect := acquires c;
     re_new_result := r; re_run := streaming |}.

Definition close_env (consume : ResultCall unit) : CloseEnv :=
  {| cl_consume := consume; cl_closed := stays_open (Ret false);
     cl_rollback := quiet; cl_send_all := quiet; cl_fetch_all := quiet |}.

(** A configuration with no time for retries. *)
Definition impatient_config : SessionConfig :=
  {| default_access_mode := WRITE_ACCESS; database := None;
     fetch_size := 1000; connection_acquisition_timeout := 60;
     initial_retry_delay := 1; retry_delay_multiplier := 2;
     retry_delay_jitter_factor := 0.2; max_transaction_retry_time := 0;
     bookmarks := [] |}.

Definition idle_world : World := new_world sample_config.

Definition impatient_world : World := new_world impatient_config.

Definition sample_delays : DelayGenerator :=
  retry_delay_generator 1 2 0.2.

(** Every call of [random()] returns one half. *)
Definition halves : nat -> float := fun _ => 0.5%float.

(** The first two calls of [random()] return one eighth, the others one
    half. *)
Definition skewed : nat -> float :=
  fun i => if Nat.ltb i 2 then 0.125%float else 0.5%float.

(** The unit of work fails in its own code. *)
Definition keyerror_turn : Attempt nat :=
  failing_turn 1%nat 1%nat (OtherException "KeyError") 1.

(** The connection is lost while the unit of work runs a query. *)
Definition lost_turn : Attempt nat :=
  failing_turn 1%nat 1%nat (ServiceUnavailable "connection lost") 1.

(** The unit of work meets a deadlock; the clock then reads [clock]. *)
Definition deadlock_turn (clock : Q) : Attempt nat :=
  failing_turn 1%nat 1%nat
    (TransientError "Neo.TransientError.Transaction.DeadlockDetected"
       "deadlock") clock.

Definition commit_turn : Attempt nat :=
  succeeding_turn 2%nat 2%nat 7%nat (Some "bm1") 2.

(** What an outcome of the engine returned or raised. *)
Definition outcome {V} (o : option (World * res V)) : option (res V) :=
  option_map snd o.

(** The calls the engine made, by name. *)
Definition calls {V} (o : option (World * res V)) : list string :=
  match o with
  | Some (w, _) => map label (log w)
  | None => []
  end.

(** A session that runs a query, is closed while the result is streaming
    ([consume] receives the end of the result), runs a second query and is
    closed again, this time with more of the result still on the server. *)
Definition after_first_run : World :=
  perform (Run (QueryStr "RETURN 1") (run_env 1%nat 1%nat)) idle_world.

Definition after_first_close : World :=
  perform (Close (close_env (completed (Some "bm1")))) after_first_run.

Definition after_second_run : World :=
  perform (Run (QueryStr "RETURN 2") (run_env 2%nat 2%nat))
    after_first_close.

Definition after_second_close : World :=
  perform (Close (close_env streaming)) after_second_run.

(** A session used again after a [with] block that ended with an exception
    before any query was run: a query, then [close] while more of the result
    is on the server. *)
Definition after_failed_block : World :=
  fst (__exit__ (Some "ValueError") (close_env streaming) idle_world).

Definition after_block_run : World :=
  perform (Run (QueryStr "RETURN 1") (run_env 1%nat 1%nat))
    after_failed_block.

Definition after_block_close : World :=
  perform (Close (close_env streaming)) after_block_run.

(** A session outside the invariant, with a result and a transaction both
    outstanding (see [begin_transaction_relies_on_callback]). *)
Definition both_outstanding : World :=
  perform
    (BeginTransaction
       {| be_detach := streaming; be_open := opens 2%nat 2%nat |})
    after_first_run.

(** A session with an explicit transaction open. *)
Definition begin_env : BeginEnv :=
  {| be_detach := completed None; be_open := opens 1%nat 1%nat |}.

Definition in_transaction : World :=
  perform (BeginTransaction begin_env) idle_world.

(** ** Footprints *)

(** The call [ev] is one of the calls named in [names]. *)
Definition allowed (names : list string) (ev : Event) : Prop :=
  In (label ev) names.

(** Run in [w], [m] adds to the log only calls that satisfy [P]. *)
Definition adds {A} (P : Event -> Prop) (m : M A) (w : World) : Prop :=
  exists l, log (fst (m w)) = (log w ++ l)%list /\ Forall P l.

(** The calls into the collaborators each public operation can make. *)
Definition footprint (op : Operation) : list string :=
  match op with
  | Run _ _ => ["_detach"; "acquire"; "_run"]
  | BeginTransaction _ =>
      ["_detach"; "send_all"; "fetch_all"; "acquire"; "_begin"]
  | CommitTransaction _ => ["commit"]
  | RollbackTransaction _ => ["rollback"]
  | NextBookmarks _ => ["_detach"]
  | Close _ =>
      ["consume"; "closed"; "connection.rollback"; "send_all"; "fetch_all"]
  end.

(** The calls [_run_transaction] can make. *)
Definition engine_footprint : list string :=
  ["send_all"; "fetch_all"; "acquire"; "_begin"; "unit_of_work"; "rollback";
   "commit"; "_close"; "warning"; "sleep"].

(** A connection is acquired and a transaction begun in [mode] only. *)
Definition in_mode (mode : AccessMode) (ev : Event) : Prop :=
  match ev with
  | EvAcquire m _ => m = mode
  | EvBegin _ m => m = mode
  | _ => True
  end.

(** The delays slept, in order. *)
Definition slept (l : list Event) : list float :=
  flat_map (fun ev => match ev with EvSleep d => [d] | _ => [] end) l.

(** The values the generator emits for the given draws of [random()]. *)
Fixpoint delays (g : DelayGenerator) (randoms : list float) : list float :=
  match randoms with
  | [] => []
  | r :: rs => fst (next g r) :: delays (snd (next g r)) rs
  end.

(** The draws of [random()] in the successive turns of a script. *)
Definition draws {V} (script : list (Attempt V)) (i : nat) : float :=
  nth i (map (@at_random V) script) 0%float.

(** ** More sample collaborators *)

(** A session that holds connection 3 and nothing else. *)
Definition connected_world : World :=
  fst (_connect None None (acquires 3%nat) idle_world).

(** The connection is gone when [close] flushes it. *)
Definition lossy_close_env : CloseEnv :=
  {| cl_consume := streaming; cl_closed := stays_open (Ret false);
     cl_rollback := quiet; cl_send_all := quiet;
     cl_fetch_all :=
       {| cc_fired := false; cc_ret := Raise (ServiceUnavailable "gone") |}
  |}.

(** The server refuses the rollback [close] sends. *)
Definition refusing_close_env : CloseEnv :=
  {| cl_consume := streaming; cl_closed := stays_open (Ret false);
     cl_rollback :=
       {| cc_fired := false; cc_ret := Raise (ServiceUnavailable "gone") |};
     cl_send_all := quiet; cl_fetch_all := quiet |}.

(** [consume] fails on a broken stream. *)
Definition broken_stream : ResultCall unit :=
  {| rc_bookmark := None; rc_fired := false;
     rc_ret := Raise (ServiceUnavailable "gone") |}.


(** The server refuses to begin a transaction. *)
Definition refused_begin_env : BeginEnv :=
  {| be_detach := completed None;
     be_open :=
       {| oe_connect := acquires 1%nat; oe_new_tx := 1%nat;
          oe_begin :=
            stays_open (Raise (Neo4jError "Neo.ClientError.X" "refused")) |}
  |}.

(** A session whose transaction was closed behind its back: the object is
    marked closed, but the completion callback has not run. *)
Definition closed_unnoticed : World :=
  fst (call_tx (_transaction (self in_transaction)) EvCommit "commit"
         (already_closed (Some "bm5") (Ret (Some "bm5"))) in_transaction).



(** A turn in which the server refuses to begin the transaction. *)
Definition refused_turn : Attempt nat :=
  {| at_open :=
       {| oe_connect := acquires 2%nat; oe_new_tx := 2%nat;
          oe_begin :=
            stays_open (Raise (Neo4jError "Neo.ClientError.X" "refused")) |};
     at_unit_of_work := stays_open (Ret 7%nat);
     at_rollback := closes None (Ret tt);
     at_commit := closes None (Ret None);
     at_close := already_closed None (Ret tt);
     at_clock := 1; at_random := 0.5; at_warning := Ret tt;
     at_sleep := Ret tt |}.

(** A session that ran a query and then a managed transaction which the
    server refused to begin: the result of the query is outstanding, and the
    transaction that never began is still the session's. *)
Definition stranded : World :=
  match
    write_transaction true 0 [refused_turn] after_first_run
  with
  | Some out => fst out
  | None => after_first_run
  end.

(** A turn in which the commit fails with [e]. *)
Definition commit_failing_turn (e : exn) : Attempt nat :=
  {| at_open := opens 1%nat 1%nat; at_unit_of_work := stays_open (Ret 7%nat);
     at_rollback := closes None (Ret tt);
     at_commit := closes None (Raise e);
     at_close := already_closed None (Ret tt);
     at_clock := 1; at_random := 0.5; at_warning := Ret tt;
     at_sleep := Ret tt |}.

(** A turn in which the unit of work is interrupted from the keyboard. *)
Definition interrupted_turn : Attempt nat :=
  failing_turn 1%nat 1%nat (BaseExceptionOnly "KeyboardInterrupt") 1.

(** A turn in which the unit of work fails and [_close] fails too. *)
Definition unclosable_turn : Attempt nat :=
  {| at_open := opens 1%nat 1%nat;
     at_unit_of_work := stays_open (Raise (OtherException "KeyError"));
     at_rollback := closes None (Ret tt);
     at_commit := closes None (Ret None);
     at_close :=
       already_closed None (Raise (Neo4jError "Neo.ClientError.X" "refused"));
     at_clock := 1; at_random := 0.5; at_warning := Ret tt;
     at_sleep := Ret tt |}.

(** A configuration whose initial retry delay is negative. *)
Definition backwards_config : SessionConfig :=
  {| default_access_mode := WRITE_ACCESS; database := None;
     fetch_size := 1000; connection_acquisition_timeout := 60;
     initial_retry_delay := -1; retry_delay_multiplier := 2;
     retry_delay_jitter_factor := 0.2; max_transaction_retry_time := 30;
     bookmarks := [] |}.

Definition backwards_world : World := new_world backwards_config.

(** A turn in which the unit of work fails and so does the clean-up. *)
Definition messy_turn : Attempt nat :=
  {| at_open := opens 1%nat 1%nat;
     at_unit_of_work := stays_open (Raise (OtherException "KeyError"));
     at_rollback := closes None (Raise (ServiceUnavailable "gone"));
     at_commit := closes None (Ret None);
     at_close := already_closed None (Ret tt);
     at_clock := 1; at_random := 0.5; at_warning := Ret tt;
     at_sleep := Ret tt |}.

(** The outcome of a managed transaction whose first turn loses the
    connection and whose second turn commits. *)
Definition retried_outcome : World * res nat :=
  match
    _run_transaction WRITE_ACCESS true 0 [lost_turn; commit_turn] idle_world
  with
  | Some out => out
  | None => (idle_world, Ret 0%nat)
  end.

(** The outcome of a read transaction that commits in its first turn. *)
Definition read_outcome : World * res nat :=
  match read_transaction true 0 [commit_turn] idle_world with
  | Some out => out
  | None => (idle_world, Ret 0%nat)
  end.

(** * Proofs

    ** Handles after the building blocks *)

Ltac exec :=
  unfold yields, call_autoResult, call_connection, call_tx,
    update_transaction, _result_closed, _transaction_closed,
    _collect_bookmark, _disconnect, clear_in_use,
    try_finally, try_except, try_except_else, when, bind, ret, raise,
    lift, get, modify, emit, truthy, handles, handles_of.

Lemma handles_fields w c t a :
  handles w = (c, t, a) ->
  is_set (_connection (self w)) = c /\ is_set (_transaction (self w)) = t /\
  is_set (_autoResult (self w)) = a.
Proof. unfold handles. intros H. injection H. auto. Qed.

Ltac world_cases w :=
  let cfg := fresh "cfg" in let cx := fresh "cx" in let ti := fresh "ti" in
  let tcl := fresh "tcl" in let tb := fresh "tb" in let ri := fresh "ri" in
  let rb := fresh "rb" in let bms := fresh "bms" in let st := fresh "st" in
  let lg := fresh "lg" in let rel := fresh "rel" in
  destruct w as [[cfg [cx|] [[ti tcl [tb|]]|] [[ri [rb|]]|] bms st] lg rel].

Ltac bookmark_cases :=
  repeat match goal with
         | |- context [String.eqb ?s EmptyString] =>
             destruct (String.eqb s EmptyString); cbn
         | |- context [match ?b with Some _ => _ | None => _ end] =>
             is_var b; destruct b
         | |- context [Nat.eqb ?x ?y] => destruct (Nat.eqb x y); cbn
         end; cbn.

Lemma disconnect_yields w c t a :
  handles w = (c, t, a) -> yields _disconnect w (Ret tt) (false, t, a).
Proof.
  world_cases w; exec; cbn; intros [= <- <- <-]; eexists; split; reflexivity.
Qed.

Lemma result_closed_yields w h :
  handles w = h -> yields _result_closed w (Ret tt) (after_result_closed h).
Proof.
  intros <-. world_cases w; exec; cbn; bookmark_cases; eexists; split;
    reflexivity.
Qed.

Lemma transaction_closed_yields w h :
  handles w = h ->
  yields _transaction_closed w (Ret tt) (after_transaction_closed h).
Proof.
  intros <-. world_cases w; exec; cbn; bookmark_cases; eexists; split;
    reflexivity.
Qed.

Lemma call_autoResult_yields {R} ev attr (o : ResultCall R) w c t :
  handles w = (c, t, true) ->
  yields (call_autoResult ev attr o) w (rc_ret o)
    (if rc_fired o then (false, t, false) else (c, t, true)).
Proof.
  destruct o as [bm [|] r]; world_cases w; exec; cbn; intros [= <- <-];
    bookmark_cases; eexists; split; reflexivity.
Qed.

Lemma call_connection_yields ev attr (o : ConnCall) w t a :
  handles w = (true, t, a) ->
  yields (call_connection ev attr o) w (cc_ret o)
    (if cc_fired o then after_result_closed (true, t, a) else (true, t, a)).
Proof.
  destruct o as [[|] r]; world_cases w; exec; cbn; intros [= <- <-];
    bookmark_cases; eexists; split; reflexivity.
Qed.

Lemma call_connection_None ev attr (o : ConnCall) w t a :
  handles w = (false, t, a) ->
  yields (call_connection ev attr o) w (Raise (NoneType_has_no attr))
    (false, t, a).
Proof.
  world_cases w; exec; cbn; intros [= <- <-]; eexists; split; reflexivity.
Qed.

Lemma call_tx_yields {R} tx ev attr (o : TxCall R) w h :
  handles w = h ->
  yields (call_tx (Some tx) ev attr o) w (tc_ret o)
    (if tc_fired o then after_transaction_closed h else h).
Proof.
  intros <-. destruct o as [cl bm [|] r]; world_cases w; exec; cbn;
    bookmark_cases; eexists; split; reflexivity.
Qed.

(** ** Rules for [ends] *)

Lemma ends_yields {A} (m : M A) w r h (P : res A -> Handles -> Prop) :
  yields m w r h -> P r h -> ends m w P.
Proof. intros (w1 & E & H) HP. unfold ends. rewrite E. cbn. now rewrite H. Qed.

Lemma ends_bind {A B} (m : M A) (k : A -> M B) w
    (P : res B -> Handles -> Prop) :
  ends m w (fun r h => match r with
                       | Ret a => forall w1, handles w1 = h -> ends (k a) w1 P
                       | Raise e => P (Raise e) h
                       end) ->
  ends (bind m k) w P.
Proof.
  unfold ends, bind. destruct (m w) as [w1 [a|e]]; cbn; intros H; auto.
Qed.

Lemma ends_get {A B} (f : Session -> A) (k : A -> M B) w
    (P : res B -> Handles -> Prop) :
  ends (k (f (self w))) w P -> ends (bind (get f) k) w P.
Proof. auto. Qed.

Lemma ends_ret {A} (a : A) w (P : res A -> Handles -> Prop) :
  P (Ret a) (handles w) -> ends (ret a) w P.
Proof. auto. Qed.

Lemma ends_raise {A} e w (P : res A -> Handles -> Prop) :
  P (Raise e) (handles w) -> ends (raise e) w P.
Proof. auto. Qed.

Lemma ends_lift {A} (r : res A) w (P : res A -> Handles -> Prop) :
  P r (handles w) -> ends (lift r) w P.
Proof. auto. Qed.

Lemma ends_emit ev w (P : res unit -> Handles -> Prop) :
  P (Ret tt) (handles w) -> ends (emit ev) w P.
Proof. auto. Qed.

Lemma ends_set_connection x w c t a (P : res unit -> Handles -> Prop) :
  handles w = (c, t, a) -> P (Ret tt) (is_set x, t, a) ->
  ends (modify (set_connection x)) w P.
Proof. unfold ends, handles. cbn. intros [= <- <- <-]. auto. Qed.

Lemma ends_set_transaction x w c t a (P : res unit -> Handles -> Prop) :
  handles w = (c, t, a) -> P (Ret tt) (c, is_set x, a) ->
  ends (modify (set_transaction x)) w P.
Proof. unfold ends, handles. cbn. intros [= <- <- <-]. auto. Qed.

Lemma ends_set_autoResult x w c t a (P : res unit -> Handles -> Prop) :
  handles w = (c, t, a) -> P (Ret tt) (c, t, is_set x) ->
  ends (modify (set_autoResult x)) w P.
Proof. unfold ends, handles. cbn. intros [= <- <- <-]. auto. Qed.

Lemma ends_set_state x w (P : res unit -> Handles -> Prop) :
  P (Ret tt) (handles w) -> ends (modify (set_state x)) w P.
Proof. auto. Qed.

Lemma ends_collect_bookmark bm w (P : res unit -> Handles -> Prop) :
  P (Ret tt) (handles w) -> ends (_collect_bookmark bm) w P.
Proof.
  unfold ends, _collect_bookmark. destruct bm as [b|]; cbn; auto.
  destruct (negb _); cbn; auto.
Qed.

Lemma ends_try_finally {A} (body : M A) (fin : M unit) w
    (P : res A -> Handles -> Prop) :
  ends body w (fun r h =>
     forall w1, handles w1 = h ->
       ends fin w1 (fun r' h' => match r' with
                                 | Ret _ => P r h'
                                 | Raise e => P (Raise e) h'
                                 end)) ->
  ends (try_finally body fin) w P.
Proof.
  unfold ends, try_finally. destruct (body w) as [w1 r]; cbn. intros H.
  specialize (H w1 eq_refl). destruct (fin w1) as [w2 [u|e]]; auto.
Qed.

Lemma ends_try_except {A} (body : M A) (caught : exn -> bool)
    (handler : exn -> M A) w (P : res A -> Handles -> Prop) :
  ends body w (fun r h =>
     match r with
     | Ret a => P (Ret a) h
     | Raise e => if caught e
                  then forall w1, handles w1 = h -> ends (handler e) w1 P
                  else P (Raise e) h
     end) ->
  ends (try_except body caught handler) w P.
Proof.
  unfold ends, try_except. destruct (body w) as [w1 [a|e]]; cbn; auto.
  destruct (caught e); auto.
Qed.

Lemma ends_mono {A} (m : M A) w (P P' : res A -> Handles -> Prop) :
  ends m w P -> (forall r h, P r h -> P' r h) -> ends m w P'.
Proof. unfold ends; auto. Qed.

(** ** Handles after the operations *)

Lemma connect_idle mode db env w c :
  handles w = (c, false, false) ->
  ends (_connect mode db env) w
    (fun r h =>
       h = (match r with Ret _ => true | Raise _ => fst (fst h) end,
            false, false)).
Proof.
  intros Hh. unfold _connect.
  apply ends_get, ends_get. destruct (handles_fields Hh) as (-> & _ & _).
  apply ends_bind. destruct c; cbn [when].
  - apply ends_bind.
    eapply ends_yields; [apply (call_connection_yields _ _ _ Hh)|].
    assert (Hsame : forall f : bool,
               (if f then after_result_closed (true, false, false)
                else (true, false, false)) = (true, false, false))
      by (intros []; reflexivity).
    rewrite Hsame.
    destruct (cc_ret (ce_send_all env)) as [[]|e]; [|reflexivity].
    intros w1 H1. apply ends_bind.
    eapply ends_yields; [apply (call_connection_yields _ _ _ H1)|].
    rewrite Hsame.
    destruct (cc_ret (ce_fetch_all env)) as [[]|e]; [|reflexivity].
    intros w2 H2.
    eapply ends_yields; [apply (disconnect_yields H2)|].
    intros w3 H3. apply ends_bind, ends_emit. rewrite H3.
    intros w4 H4. apply ends_bind, ends_lift. rewrite H4.
    destruct (ce_acquire env) as [cx|e]; [|reflexivity].
    intros w5 H5. eapply ends_set_connection; eauto.
  - apply ends_ret. rewrite Hh.
    intros w3 H3. apply ends_bind, ends_emit. rewrite H3.
    intros w4 H4. apply ends_bind, ends_lift. rewrite H4.
    destruct (ce_acquire env) as [cx|e]; [|reflexivity].
    intros w5 H5. eapply ends_set_connection; eauto.
Qed.

Lemma ends_get_last {A} (f : Session -> A) w
    (P : res A -> Handles -> Prop) :
  P (Ret (f (self w))) (handles w) -> ends (get f) w P.
Proof. auto. Qed.

Lemma open_transaction_idle mode db env w c :
  handles w = (c, false, false) ->
  ends (_open_transaction mode db env) w keeps_inv.
Proof.
  intros Hh. unfold _open_transaction, keeps_inv. apply ends_bind.
  eapply ends_mono; [apply (connect_idle _ _ _ Hh)|].
  intros [[]|e] h ->; cbn.
  - intros w1 H1. apply ends_bind. eapply ends_set_transaction; eauto.
    intros w2 H2. apply ends_get, ends_get. cbn [is_set] in H2.
    destruct (handles_fields H2) as (_ & Ht & _).
    destruct (_transaction (self w2)) as [t0|]; [|discriminate].
    eapply ends_yields; [apply (call_tx_yields _ _ _ _ H2)|].
    destruct (tc_fired (oe_begin env)); reflexivity.
  - destruct h as [[[|] ?] ?]; reflexivity.
Qed.


Lemma detach_keeps (o : ResultCall unit) w c t a :
  handles w = (c, t, a) -> inv_h (c, t, a) = true ->
  ends (when a (call_autoResult EvDetach "_detach" o)) w
    (fun r h => inv_h h = true /\ snd (fst h) = t /\
                (r = Ret tt -> a = false \/ completes o = true ->
                 snd h = false)).
Proof.
  intros Hh Hi. destruct a; cbn [when].
  - eapply ends_yields; [apply (call_autoResult_yields _ _ _ Hh)|].
    unfold completes. destruct c, t; try discriminate.
    destruct (rc_fired o), (rc_ret o) as [[]|e]; cbn; repeat split;
      try congruence; intros _ [H|H]; congruence.
  - apply ends_ret. rewrite Hh. auto.
Qed.

Lemma run_keeps q env w :
  inv_h (handles w) = true -> ends (run q env) w keeps_inv.
Proof.
  intros Hi. unfold run, keeps_inv.
  destruct (negb (query_truth q)); [apply ends_raise, Hi|].
  destruct (negb (is_str_or_Query q)); [apply ends_raise, Hi|].
  apply ends_get. destruct (handles w) as [[c t] a] eqn:Hh.
  destruct (handles_fields Hh) as (Hc & Ht & Ha). rewrite Ht.
  destruct t; cbn [is_set]; [apply ends_raise; now rewrite Hh|].
  apply ends_get. rewrite Ha. apply ends_bind.
  eapply ends_mono; [apply (detach_keeps _ Hh Hi)|].
  intros r [[c1 t1] a1] (Hi1 & Ht1 & _). cbn in Ht1. subst t1.
  destruct r as [[]|e]; [|exact Hi1].
  intros w1 H1. apply ends_get, ends_get.
  destruct (handles_fields H1) as (Hc1 & _ & _). rewrite Hc1.
  apply ends_bind.
  assert (Htail : forall w2 a2, handles w2 = (true, false, a2) ->
            ends (cx <- get _connection ;;
                  match cx with
                  | Some _ =>
                      modify (set_autoResult
                                (Some {| result_id := re_new_result env;
                                         result_bookmark := None |})) ;;
                      bms <- get _bookmarks ;;
                      call_autoResult (EvResultRun bms) "_run" (re_run env) ;;
                      get _autoResult
                  | None => raise (NoneType_has_no "PROTOCOL_VERSION")
                  end) w2 (fun _ h => inv_h h = true)).
  { intros w2 a2 H2. apply ends_get.
    destruct (handles_fields H2) as (Hc2 & _ & _).
    destruct (_connection (self w2)) as [cx|]; [|discriminate].
    apply ends_bind. eapply ends_set_autoResult; eauto.
    intros w3 H3. apply ends_get, ends_bind. cbn [is_set] in H3.
    eapply ends_yields; [apply (call_autoResult_yields _ _ _ H3)|].
    destruct (rc_fired (re_run env)), (rc_ret (re_run env)) as [[]|e];
      try reflexivity; intros w4 H4; apply ends_get_last; now rewrite H4. }
  destruct c1; cbn [negb when].
  - apply ends_ret. rewrite H1. intros w2 H2. eapply Htail; eauto.
  - destruct a1; [discriminate|].
    eapply ends_mono; [apply (connect_idle _ _ _ H1)|].
    intros [[]|e] h ->; cbn.
    + intros w2 H2. eapply Htail; eauto.
    + destruct h as [[[|] ?] ?]; reflexivity.
Qed.

Lemma begin_transaction_keeps env w :
  inv_h (handles w) = true ->
  (is_set (_autoResult (self w)) = true -> completes (be_detach env) = true) ->
  ends (begin_transaction env) w keeps_inv.
Proof.
  intros Hi Hc. unfold begin_transaction, keeps_inv.
  apply ends_get. destruct (handles w) as [[c t] a] eqn:Hh.
  destruct (handles_fields Hh) as (_ & _ & Ha). rewrite Ha in *.
  apply ends_bind.
  eapply ends_mono; [apply (detach_keeps _ Hh Hi)|].
  intros r [[c1 t1] a1] (Hi1 & Ht1 & Ha1). cbn in Ht1, Ha1. subst t1.
  destruct r as [[]|e]; [|exact Hi1].
  intros w1 H1. apply ends_get.
  destruct (handles_fields H1) as (_ & Ht1 & _). rewrite Ht1.
  destruct t; cbn [is_set]; [apply ends_raise; now rewrite H1|].
  assert (a1 = false) as ->.
  { apply Ha1; auto. destruct a; auto. }
  apply ends_get, ends_bind.
  eapply ends_mono; [apply (open_transaction_idle _ _ _ H1)|].
  intros [[]|e] h Hk; [|exact Hk].
  intros w2 H2. apply ends_get_last. now rewrite H2.
Qed.

Lemma next_bookmarks_keeps o w :
  inv_h (handles w) = true -> ends (next_bookmarks o) w keeps_inv.
Proof.
  intros Hi. unfold next_bookmarks, keeps_inv.
  apply ends_get. destruct (handles w) as [[c t] a] eqn:Hh.
  destruct (handles_fields Hh) as (_ & _ & Ha). rewrite Ha.
  apply ends_bind.
  eapply ends_mono; [apply (detach_keeps _ Hh Hi)|].
  intros r [[c1 t1] a1] (Hi1 & _ & _).
  destruct r as [[]|e]; [|exact Hi1].
  intros w1 H1. apply ends_get, ends_bind.
  assert (Hlast : forall w2 h2, handles w2 = h2 -> inv_h h2 = true ->
            ends (get _bookmarks) w2 (fun _ h => inv_h h = true)).
  { intros w2 h2 <- H. apply ends_get_last, H. }
  destruct (_transaction (self w1)) as [t0|].
  - destruct (tx_closed t0); cbn [when].
    + apply ends_bind, ends_collect_bookmark. intros w2 H2.
      eapply ends_set_transaction; [rewrite H2; eassumption|].
      intros w3 H3. apply (Hlast _ _ H3).
      destruct c1, t1, a1; try discriminate; reflexivity.
    + apply ends_ret. intros w2 H2. apply (Hlast _ _ H2). now rewrite H1.
  - apply ends_ret. intros w2 H2. apply (Hlast _ _ H2). now rewrite H1.
Qed.

Lemma finalize_keeps {R} (tx : option Transaction) ev attr (o : TxCall R) w :
  inv_h (handles w) = true ->
  tx = _transaction (self w) -> is_set tx = true ->
  ends (try_finally (call_tx tx ev attr o) _transaction_closed) w
    (fun _ h => h = (false, false, false)).
Proof.
  intros Hi -> Hs. apply ends_try_finally.
  destruct (handles w) as [[c t] a] eqn:Hh.
  destruct (handles_fields Hh) as (_ & Ht & _). rewrite Hs in Ht. subst t.
  destruct (_transaction (self w)) as [t0|]; [|discriminate].
  eapply ends_yields; [apply (call_tx_yields _ _ _ _ Hh)|].
  intros w1 H1.
  eapply ends_yields; [apply (transaction_closed_yields H1)|].
  destruct c, a; try discriminate.
  destruct (tc_fired o), (tc_ret o); reflexivity.
Qed.

Lemma commit_transaction_keeps o w :
  inv_h (handles w) = true -> ends (commit_transaction o) w keeps_inv.
Proof.
  intros Hi. unfold commit_transaction, keeps_inv. apply ends_get.
  destruct (is_set (_transaction (self w))) eqn:Hs; cbn [negb].
  - eapply ends_mono; [apply finalize_keeps; auto|]. now intros _ h ->.
  - apply ends_raise, Hi.
Qed.

Lemma rollback_transaction_keeps o w :
  inv_h (handles w) = true -> ends (rollback_transaction o) w keeps_inv.
Proof.
  intros Hi. unfold rollback_transaction, keeps_inv. apply ends_get.
  destruct (is_set (_transaction (self w))) eqn:Hs; cbn [negb].
  - eapply ends_mono; [apply finalize_keeps; auto|]. now intros _ h ->.
  - apply ends_raise, Hi.
Qed.

Lemma close_flush env w c :
  handles w = (c, false, false) ->
  ends (try_finally
          (try_except
             (call_connection EvSendAll "send_all" (cl_send_all env) ;;
              call_connection EvFetchAll "fetch_all" (cl_fetch_all env))
             swallowed_by_close
             (fun _ => ret tt))
          _disconnect ;;
        modify (set_state None)) w
    (fun _ h => h = (false, false, false)).
Proof.
  intros Hh.
  assert (Hsame : forall f : bool,
             (if f then after_result_closed (true, false, false)
              else (true, false, false)) = (true, false, false))
    by (intros []; reflexivity).
  apply ends_bind, ends_try_finally.
  assert (Hfin : forall h c1, h = (c1, false, false) ->
            forall w1, handles w1 = h ->
            ends _disconnect w1
              (fun (r' : res unit) h' =>
                 match r' with
                 | Ret _ =>
                     forall w2, handles w2 = h' ->
                       ends (modify (set_state None)) w2
                         (fun _ h2 => h2 = (false, false, false))
                 | Raise _ => h' = (false, false, false)
                 end)).
  { intros h c1 -> w1 H1.
    eapply ends_yields; [apply (disconnect_yields H1)|].
    intros w2 H2. apply ends_set_state, H2. }
  assert (Hfin' : forall h c1, h = (c1, false, false) ->
            forall w1, handles w1 = h ->
            ends _disconnect w1
              (fun (r' : res unit) h' =>
                 match r' with
                 | Ret _ => h' = (false, false, false)
                 | Raise _ => h' = (false, false, false)
                 end)).
  { intros h c1 -> w1 H1.
    eapply ends_yields; [apply (disconnect_yields H1)|]. reflexivity. }
  apply ends_try_except, ends_bind. destruct c.
  - eapply ends_yields; [apply (call_connection_yields _ _ _ Hh)|].
    rewrite Hsame.
    destruct (cc_ret (cl_send_all env)) as [[]|e].
    + intros w1 H1.
      eapply ends_yields; [apply (call_connection_yields _ _ _ H1)|].
      rewrite Hsame.
      destruct (cc_ret (cl_fetch_all env)) as [[]|e].
      * eapply Hfin; reflexivity.
      * destruct (swallowed_by_close e).
        -- intros w2 H2. apply ends_ret. rewrite H2. eapply Hfin; reflexivity.
        -- eapply Hfin'; reflexivity.
    + destruct (swallowed_by_close e).
      * intros w2 H2. apply ends_ret. rewrite H2. eapply Hfin; reflexivity.
      * eapply Hfin'; reflexivity.
  - eapply ends_yields; [apply (call_connection_None _ _ _ Hh)|].
    cbn. eapply Hfin'; reflexivity.
Qed.

Lemma close_result_part env w t :
  handles w = (true, t, true) -> inv_h (true, t, true) = true ->
  negb (state_is (_state (self w)) "error_state") &&
  completes (cl_consume env) = true ->
  ends (st <- get _state ;;
        when (negb (state_is st "error_state"))
          (try_except
             (call_autoResult EvConsume "consume" (cl_consume env) ;;
              r <- get _autoResult ;;
              match r with
              | None => raise (NoneType_has_no "_bookmark")
              | Some r0 => _collect_bookmark (result_bookmark r0)
              end)
             isinstance_Exception
             (fun _ =>
                modify (set_autoResult None) ;;
                modify (set_state (Some "error_state"))))) w
    (fun r h => match r with
                | Ret _ => snd (fst h) = false /\ snd h = false
                | Raise _ => inv_h h = true
                end).
Proof.
  intros Hh Hi Hc. apply andb_prop in Hc as [Hst Hc].
  apply ends_get. rewrite Hst. cbn [when].
  destruct t; [discriminate|].
  apply ends_try_except, ends_bind.
  eapply ends_yields; [apply (call_autoResult_yields _ _ _ Hh)|].
  unfold completes in Hc.
  assert (Hhandler : forall h c1 a1, h = (c1, false, a1) ->
            forall w1, handles w1 = h ->
            ends (modify (set_autoResult None) ;;
                  modify (set_state (Some "error_state"))) w1
              (fun (r : res unit) h' =>
                 match r with
                 | Ret _ => snd (fst h') = false /\ snd h' = false
                 | Raise _ => inv_h h' = true
                 end)).
  { intros h c1 a1 -> w1 H1. apply ends_bind.
    eapply ends_set_autoResult; eauto. intros w2 H2.
    apply ends_set_state. rewrite H2. auto. }
  destruct (rc_ret (cl_consume env)) as [[]|e].
  - rewrite Hc. intros w1 H1. apply ends_get.
    destruct (handles_fields H1) as (_ & _ & Ha).
    destruct (_autoResult (self w1)) as [r0|]; [discriminate|].
    apply ends_raise. cbn [isinstance_Exception NoneType_has_no]. rewrite H1.
    eapply Hhandler; reflexivity.
  - destruct (isinstance_Exception e).
    + destruct (rc_fired (cl_consume env)); eapply Hhandler; reflexivity.
    + destruct (rc_fired (cl_consume env)); reflexivity.
Qed.

Lemma close_transaction_part env w c t :
  handles w = (c, t, false) -> inv_h (c, t, false) = true ->
  ends (tx <- get _transaction ;;
        when (is_set tx)
          (closed <- call_tx tx EvClosedQuery "closed" (cl_closed env) ;;
           when (negb closed)
             (call_connection EvConnRollback "rollback" (cl_rollback env)) ;;
           modify (set_transaction None))) w
    (fun r h => match r with
                | Ret _ => snd (fst h) = false /\ snd h = false
                | Raise _ => inv_h h = true
                end).
Proof.
  intros Hh Hi. apply ends_get.
  destruct (handles_fields Hh) as (_ & Ht & _).
  destruct (_transaction (self w)) as [t0|]; cbn in Ht; subst t;
    cbn [is_set when].
  - destruct c; [|discriminate].
    apply ends_bind.
    eapply ends_yields; [apply (call_tx_yields _ _ _ _ Hh)|].
    assert (Hclear : forall w2 c2 t2, handles w2 = (c2, t2, false) ->
              ends (modify (set_transaction None)) w2
                (fun (r : res unit) h =>
                   match r with
                   | Ret _ => snd (fst h) = false /\ snd h = false
                   | Raise _ => inv_h h = true
                   end)).
    { intros w2 c2 t2 H2. eapply ends_set_transaction; eauto. }
    destruct (tc_ret (cl_closed env)) as [closed|e].
    + intros w1 H1. apply ends_bind. destruct closed; cbn [negb when].
      * apply ends_ret. rewrite H1. intros w2 H2.
        destruct (tc_fired (cl_closed env)); eapply Hclear; eauto.
      * destruct (tc_fired (cl_closed env)); cbn in H1.
        -- eapply ends_yields; [apply (call_connection_None _ _ _ H1)|].
           reflexivity.
        -- eapply ends_yields; [apply (call_connection_yields _ _ _ H1)|].
           destruct (cc_fired (cl_rollback env)),
             (cc_ret (cl_rollback env)) as [[]|e]; cbn; try reflexivity;
             intros w2 H2; eapply Hclear; eauto.
    + destruct (tc_fired (cl_closed env)); reflexivity.
  - apply ends_ret. rewrite Hh. auto.
Qed.

Lemma close_keeps env w :
  inv_h (handles w) = true ->
  close_contract env (self w) = true ->
  ends (close env) w keeps_inv.
Proof.
  intros Hi Hc. unfold close, keeps_inv, close_contract in *.
  apply ends_get. destruct (handles w) as [[c t] a] eqn:Hh.
  destruct (handles_fields Hh) as (Hcx & _ & Ha). rewrite Hcx. rewrite Ha in *.
  destruct c; cbn [when]; [|apply ends_ret; now rewrite Hh].
  apply ends_get. rewrite Ha. apply ends_bind.
  assert (Hrest : forall w1 c1 t1, handles w1 = (c1, t1, false) ->
            inv_h (c1, t1, false) = true ->
            ends (tx <- get _transaction ;;
                  when (is_set tx)
                    (closed <- call_tx tx EvClosedQuery "closed"
                                 (cl_closed env) ;;
                     when (negb closed)
                       (call_connection EvConnRollback "rollback"
                          (cl_rollback env)) ;;
                     modify (set_transaction None)) ;;
                  try_finally
                    (try_except
                       (call_connection EvSendAll "send_all"
                          (cl_send_all env) ;;
                        call_connection EvFetchAll "fetch_all"
                          (cl_fetch_all env))
                       swallowed_by_close
                       (fun _ => ret tt))
                    _disconnect ;;
                  modify (set_state None)) w1 (fun _ h => inv_h h = true)).
  { intros w1 c1 t1 H1 Hi1.
    change (ends (bind (tx <- get _transaction ;;
                        when (is_set tx)
                          (closed <- call_tx tx EvClosedQuery "closed"
                                       (cl_closed env) ;;
                           when (negb closed)
                             (call_connection EvConnRollback "rollback"
                                (cl_rollback env)) ;;
                           modify (set_transaction None)))
                    (fun _ =>
                       try_finally
                         (try_except
                            (call_connection EvSendAll "send_all"
                               (cl_send_all env) ;;
                             call_connection EvFetchAll "fetch_all"
                               (cl_fetch_all env))
                            swallowed_by_close
                            (fun _ => ret tt))
                         _disconnect ;;
                       modify (set_state None))) w1
              (fun _ h => inv_h h = true)).
    apply ends_bind.
    eapply ends_mono; [apply (close_transaction_part _ H1 Hi1)|].
    intros [[]|e] [[c2 t2] a2]; cbn; [|auto].
    intros [-> ->] w2 H2.
    eapply ends_mono; [apply (close_flush _ H2)|]. now intros _ h ->. }
  destruct a; cbn [when].
  - eapply ends_mono; [apply (close_result_part _ Hh Hi Hc)|].
    intros [[]|e] [[c1 t1] a1]; cbn; [|auto].
    intros [-> ->] w1 H1. eapply Hrest; eauto.
  - apply ends_ret. rewrite Hh. intros w1 H1. eapply Hrest; eauto.
Qed.

(** ** The log only grows *)

Lemma extends_ret {A} (a : A) : extends (ret a).
Proof. intros w. exists []. cbn. now rewrite app_nil_r. Qed.

Lemma extends_raise {A} e : extends (@raise A e).
Proof. intros w. exists []. cbn. now rewrite app_nil_r. Qed.

Lemma extends_lift {A} (r : res A) : extends (lift r).
Proof. intros w. exists []. cbn. now rewrite app_nil_r. Qed.

Lemma extends_get {A} (f : Session -> A) : extends (get f).
Proof. intros w. exists []. cbn. now rewrite app_nil_r. Qed.

Lemma extends_modify f : extends (modify f).
Proof. intros w. exists []. cbn. now rewrite app_nil_r. Qed.

Lemma extends_clear_in_use c : extends (clear_in_use c).
Proof. intros w. exists []. cbn. now rewrite app_nil_r. Qed.

Lemma extends_emit ev : extends (emit ev).
Proof. intros w. exists [ev]. reflexivity. Qed.

Lemma extends_bind {A B} (m : M A) (k : A -> M B) :
  extends m -> (forall a, extends (k a)) -> extends (bind m k).
Proof.
  intros Hm Hk w. unfold bind. destruct (Hm w) as [l1 E1].
  destruct (m w) as [w1 [a|e]]; cbn in *.
  - destruct (Hk a w1) as [l2 E2]. exists (l1 ++ l2)%list.
    now rewrite E2, E1, app_assoc.
  - now exists l1.
Qed.

Lemma extends_when b m : extends m -> extends (when b m).
Proof. destruct b; cbn; auto using extends_ret. Qed.

Lemma extends_try_finally {A} (body : M A) fin :
  extends body -> extends fin -> extends (try_finally body fin).
Proof.
  intros Hb Hf w. unfold try_finally. destruct (Hb w) as [l1 E1].
  destruct (body w) as [w1 r]; cbn in *. destruct (Hf w1) as [l2 E2].
  exists (l1 ++ l2)%list. rewrite app_assoc, <- E1, <- E2.
  destruct (fin w1) as [w2 [u|e]]; reflexivity.
Qed.

Lemma extends_try_except {A} (body : M A) caught handler :
  extends body -> (forall e, extends (handler e)) ->
  extends (try_except body caught handler).
Proof.
  intros Hb Hh w. unfold try_except. destruct (Hb w) as [l1 E1].
  destruct (body w) as [w1 [a|e]]; cbn in *; [now exists l1|].
  destruct (caught e); [|now exists l1].
  destruct (Hh e w1) as [l2 E2]. exists (l1 ++ l2)%list.
  now rewrite E2, E1, app_assoc.
Qed.

Lemma extends_try_except_else {A B} (body : M A) caught (handler : exn -> M B)
    (orelse : A -> M B) :
  extends body -> (forall e, extends (handler e)) ->
  (forall a, extends (orelse a)) ->
  extends (try_except_else body caught handler orelse).
Proof.
  intros Hb Hh Ho w. unfold try_except_else. destruct (Hb w) as [l1 E1].
  destruct (body w) as [w1 [a|e]]; cbn in *.
  - destruct (Ho a w1) as [l2 E2]. exists (l1 ++ l2)%list.
    now rewrite E2, E1, app_assoc.
  - destruct (caught e); [|now exists l1].
    destruct (Hh e w1) as [l2 E2]. exists (l1 ++ l2)%list.
    now rewrite E2, E1, app_assoc.
Qed.

Create HintDb extends_db.
#[local] Hint Resolve extends_ret extends_raise extends_lift extends_get
  extends_modify extends_clear_in_use extends_emit extends_when
  extends_try_finally extends_try_except extends_try_except_else
  : extends_db.

Ltac extends_steps :=
  cbv zeta;
  repeat first
    [ solve [auto with extends_db]
    | apply extends_bind; [|intros]
    | apply extends_when
    | apply extends_try_finally
    | apply extends_try_except; [|intros]
    | apply extends_try_except_else; [|intros|intros]
    | match goal with
      | |- extends (match ?x with _ => _ end) => destruct x
      | |- extends (if ?x then _ else _) => destruct x
      end ].

Lemma extends_disconnect : extends _disconnect.
Proof. unfold _disconnect. extends_steps. Qed.
#[local] Hint Resolve extends_disconnect : extends_db.

Lemma extends_collect_bookmark b : extends (_collect_bookmark b).
Proof. unfold _collect_bookmark. extends_steps. Qed.
#[local] Hint Resolve extends_collect_bookmark : extends_db.

Lemma extends_result_closed : extends _result_closed.
Proof. unfold _result_closed. extends_steps. Qed.

Lemma extends_transaction_closed : extends _transaction_closed.
Proof. unfold _transaction_closed. extends_steps. Qed.
#[local] Hint Resolve extends_result_closed extends_transaction_closed
  : extends_db.

Lemma extends_call_connection ev attr o : extends (call_connection ev attr o).
Proof. unfold call_connection. extends_steps. Qed.

Lemma extends_call_tx {R} tx ev attr (o : TxCall R) :
  extends (call_tx tx ev attr o).
Proof. unfold call_tx. extends_steps. Qed.
#[local] Hint Resolve extends_call_connection extends_call_tx : extends_db.

Lemma extends_connect mode db env : extends (_connect mode db env).
Proof. unfold _connect. extends_steps. Qed.
#[local] Hint Resolve extends_connect : extends_db.

Lemma extends_open_transaction mode db env :
  extends (_open_transaction mode db env).
Proof. unfold _open_transaction. extends_steps. Qed.
#[local] Hint Resolve extends_open_transaction : extends_db.

Lemma extends_warn_and_sleep d errors warning slept :
  extends (warn_and_sleep d errors warning slept).
Proof. unfold warn_and_sleep. extends_steps. Qed.

Section Engine.
Variable V : Type.

Lemma extends_call_unit_of_work tx (o : TxCall V) :
  extends (call_unit_of_work tx o).
Proof. unfold call_unit_of_work. extends_steps. Qed.

Lemma extends_work tx (a : Attempt V) : extends (work tx a).
Proof.
  unfold work. pose proof extends_call_unit_of_work. extends_steps.
Qed.

Lemma extends_attempt mode (a : Attempt V) : extends (attempt mode a).
Proof.
  unfold attempt, open_attempt. pose proof extends_work. extends_steps.
Qed.

Lemma retry_loop_extends mode t0 (script : list (Attempt V)) :
  forall errors g w out,
    retry_loop mode t0 script errors g w = Some out ->
    exists l, log (fst out) = (log w ++ l)%list.
Proof.
  induction script as [|a script IH]; intros errors g w out; cbn [retry_loop].
  - discriminate.
  - destruct (extends_attempt mode a w) as [l1 E1].
    destruct (attempt mode a w) as [w1 [v|e]]; cbn [fst] in E1.
    + intros [= <-]. now exists l1.
    + destruct (record_error errors e) as [errors'|].
      * destruct (budget_exceeded _ _ _).
        -- intros [= <-]. now exists l1.
        -- cbv zeta.
           destruct (extends_warn_and_sleep (fst (next g (at_random a)))
                       errors' (at_warning a) (at_sleep a) w1) as [lp Ep].
           destruct (warn_and_sleep _ _ _ _ w1) as [w2 [u|e']];
             cbn [fst] in Ep.
           ++ intros H. apply IH in H. destruct H as [l2 E2].
              rewrite E2, Ep, E1. eexists. rewrite <- !app_assoc.
              reflexivity.
           ++ intros [= <-]. cbn [fst]. rewrite Ep, E1. eexists.
              rewrite <- app_assoc. reflexivity.
      * intros [= <-]. now exists l1.
Qed.
End Engine.

(** ** The retry loop *)

(** A call on a transaction object returns what the collaborator decides and
    is logged once. *)
Lemma call_tx_logged {R} t ev attr (o : TxCall R) w :
  exists w1, call_tx (Some t) ev attr o w = (w1, tc_ret o) /\
             log w1 = (log w ++ [ev])%list.
Proof.
  destruct o as [cl bm [|] r]; world_cases w; exec; cbn; bookmark_cases;
    eexists; repeat split; reflexivity.
Qed.

(** A pause in which the warning and the sleep return. *)
Lemma pause_returns d errors w :
  sleep_rejects d = None ->
  warn_and_sleep d errors (Ret tt) (Ret tt) w =
    (paused d (warning_text errors) w, Ret tt).
Proof.
  intros H. unfold warn_and_sleep, bind, emit, lift, paused. cbn.
  rewrite H. cbn. rewrite <- app_assoc. reflexivity.
Qed.

(** Whatever the warning and the sleep do, the pause touches the log only:
    the warning is always logged, the sleep unless the warning raised, and a
    pause that returns has made both calls. *)
Lemma pause_log d errors warning slept w :
  (log (fst (warn_and_sleep d errors warning slept w)) =
     (log w ++ [EvWarning d (warning_text errors)])%list \/
   log (fst (warn_and_sleep d errors warning slept w)) =
     (log w ++ [EvWarning d (warning_text errors); EvSleep d])%list) /\
  (forall u, snd (warn_and_sleep d errors warning slept w) = Ret u ->
     fst (warn_and_sleep d errors warning slept w) =
       paused d (warning_text errors) w).
Proof.
  unfold warn_and_sleep, bind, emit, lift, raise, paused. cbn.
  destruct warning as [[]|e1]; cbn.
  - destruct (sleep_rejects d) as [e2|]; cbn.
    + rewrite <- app_assoc. split; [now right|discriminate].
    + destruct slept as [[]|e3]; cbn; rewrite <- app_assoc;
        (split; [now right|]); [reflexivity|discriminate].
  - split; [now left|discriminate].
Qed.

Lemma budget_not_exceeded cfg (t0 t1 : Q) :
  (t1 - t0 <= max_transaction_retry_time cfg)%Q ->
  budget_exceeded cfg t0 t1 = false.
Proof.
  intros H. unfold budget_exceeded. apply Qle_bool_iff in H.
  now rewrite H.
Qed.

Section EngineFacts.

Variable V : Type.

Lemma call_unit_of_work_logged tx (o : TxCall V) w :
  exists w1, call_unit_of_work tx o w = (w1, tc_ret o) /\
             log w1 = (log w ++ [EvUnitOfWork])%list.
Proof.
  unfold call_unit_of_work.
  destruct tx as [t|]; destruct o as [cl bm [|] r]; world_cases w; exec; cbn;
    bookmark_cases; eexists; repeat split; reflexivity.
Qed.

(** What [work] does when the unit of work raises. *)
Lemma work_when_unit_of_work_raises t (a : Attempt V) w e :
  tc_ret (at_unit_of_work a) = Raise e ->
  (isinstance_Exception e = true -> tc_ret (at_rollback a) = Ret tt) ->
  tc_ret (at_close a) = Ret tt ->
  exists w', work (Some t) a w = (w', Raise e) /\
    log w' = (log w ++ EvUnitOfWork ::
                (if isinstance_Exception e then [EvRollback] else []) ++
                [EvTxClose])%list.
Proof.
  intros Hu Hr Hc. unfold work, try_finally, try_except_else.
  destruct (call_unit_of_work_logged (Some t) (at_unit_of_work a) w)
    as (w1 & E1 & L1).
  rewrite E1, Hu.
  destruct (isinstance_Exception e).
  - unfold bind.
    destruct (call_tx_logged t EvRollback "rollback" (at_rollback a) w1)
      as (w2 & E2 & L2).
    rewrite E2, (Hr eq_refl). cbn [raise].
    destruct (call_tx_logged t EvTxClose "_close" (at_close a) w2)
      as (w3 & E3 & L3).
    rewrite E3, Hc. exists w3. split; [reflexivity|].
    rewrite L3, L2, L1, <- !app_assoc. reflexivity.
  - destruct (call_tx_logged t EvTxClose "_close" (at_close a) w1)
      as (w3 & E3 & L3).
    rewrite E3, Hc. exists w3. split; [reflexivity|].
    rewrite L3, L1, <- !app_assoc. reflexivity.
Qed.

Lemma attempt_after_open mode (a : Attempt V) w w0 :
  open_attempt mode a w = (w0, Ret tt) ->
  attempt mode a w = work (_transaction (self w0)) a w0.
Proof. intros H. unfold attempt, bind. rewrite H. reflexivity. Qed.

(** Once the transaction is opened, the unit of work is the next call. *)
Lemma attempt_calls_unit_of_work mode (a : Attempt V) w w0 :
  open_attempt mode a w = (w0, Ret tt) ->
  exists l,
    log (fst (attempt mode a w)) = (log w0 ++ EvUnitOfWork :: l)%list.
Proof.
  intros Ho. rewrite (attempt_after_open _ _ _ Ho).
  destruct (call_unit_of_work_logged (_transaction (self w0))
              (at_unit_of_work a) w0) as (w1 & E1 & L1).
  set (tx := _transaction (self w0)) in *.
  set (rest :=
         try_finally
           (try_except_else (lift (tc_ret (at_unit_of_work a)))
              isinstance_Exception
              (fun e =>
                 call_tx tx EvRollback "rollback" (at_rollback a) ;;
                 raise e)
              (fun result =>
                 call_tx tx EvCommit "commit" (at_commit a) ;;
                 ret result))
           (call_tx tx EvTxClose "_close" (at_close a))).
  assert (Hw : work tx a w0 = rest w1).
  { unfold work, rest, try_finally, try_except_else, lift.
    now rewrite E1. }
  assert (He : extends rest) by (unfold rest; extends_steps).
  destruct (He w1) as [l El]. exists l.
  rewrite Hw, El, L1, <- app_assoc. reflexivity.
Qed.

(** The log of every outcome of the loop starts with the log of its first
    turn. *)
Lemma retry_loop_starts_with_attempt mode t0 (a : Attempt V) script errors g
    w out :
  retry_loop mode t0 (a :: script) errors g w = Some out ->
  exists l, log (fst out) = (log (fst (attempt mode a w)) ++ l)%list.
Proof.
  cbn [retry_loop].
  destruct (attempt mode a w) as [w1 [v|e]]; cbn [fst].
  - intros [= <-]. exists []. now rewrite app_nil_r.
  - destruct (record_error errors e) as [errors'|].
    + destruct (budget_exceeded _ _ _).
      * intros [= <-]. exists []. now rewrite app_nil_r.
      * cbv zeta.
        destruct (extends_warn_and_sleep (fst (next g (at_random a)))
                    errors' (at_warning a) (at_sleep a) w1) as [lp Ep].
        destruct (warn_and_sleep _ _ _ _ w1) as [w2 [u|e']];
          cbn [fst] in Ep.
        -- intros H. apply retry_loop_extends in H. destruct H as [l E].
           rewrite E, Ep. eexists. rewrite <- !app_assoc. reflexivity.
        -- intros [= <-]. cbn [fst]. rewrite Ep. eauto.
    + intros [= <-]. exists []. now rewrite app_nil_r.
Qed.


Lemma record_error_snoc errors e errors' :
  record_error errors e = Some errors' -> errors' = (errors ++ [e])%list.
Proof.
  unfold record_error.
  destruct (is_connectivity_error e); [congruence|].
  destruct (isinstance_TransientError e); [|discriminate].
  destruct (is_retriable_transient_error e); congruence.
Qed.

(** At the budget check the list of recorded errors is never empty. *)
Lemma recorded_errors_not_empty errors e errors' :
  record_error errors e = Some errors' -> errors' <> [].
Proof.
  intros H. apply record_error_snoc in H. subst errors'.
  now destruct errors.
Qed.

Lemma not_retriable_iff c m :
  is_retriable_transient_error (TransientError c m) = false <->
  c = "Neo.TransientError.Transaction.Terminated" \/
  c = "Neo.TransientError.Transaction.LockClientStopped".
Proof.
  unfold is_retriable_transient_error, not_retriable_codes.
  cbn [code existsb].
  destruct (String.eqb_spec c "Neo.TransientError.Transaction.Terminated");
    destruct (String.eqb_spec c
                "Neo.TransientError.Transaction.LockClientStopped");
    cbn; split; auto; try discriminate; intros [H|H]; contradiction.
Qed.

(** One step of the loop after a turn that failed with a recorded error:
    while the budget lasts and the pause returns, the loop goes on with the
    rest of the script, from the session the turn left, the warning and the
    sleep logged, the error recorded and the generator advanced. *)
Lemma retry_step mode t0 (a : Attempt V) script errors g w w1 e :
  attempt mode a w = (w1, Raise e) ->
  record_error errors e = Some (errors ++ [e])%list ->
  (at_clock a - t0 <= max_transaction_retry_time (_config (self w1)))%Q ->
  at_warning a = Ret tt ->
  sleep_rejects (fst (next g (at_random a))) = None ->
  at_sleep a = Ret tt ->
  retry_loop mode t0 (a :: script) errors g w =
    retry_loop mode t0 script (errors ++ [e])%list
      (snd (next g (at_random a)))
      (paused (fst (next g (at_random a)))
         (warning_text (errors ++ [e])%list) w1).
Proof.
  intros Ha Hr Hb Hw Hd Hs. cbn [retry_loop].
  rewrite Ha, Hr, (@budget_not_exceeded _ _ _ Hb). cbv zeta.
  now rewrite Hw, Hs, (@pause_returns _ _ _ Hd).
Qed.

(** C3 (as amended).  When the unit of work raises [e], and [tx.rollback()]
    (called when [e] is a subclass of Exception) and [tx._close()] return
    normally, the turn ends with [e] after the calls unit of work, rollback
    (for a subclass of Exception) and close.  When [e] is neither a
    connectivity error nor a retriable TransientError the engine raises it
    at once: no sleep, no second call, and the rest of the script is not
    run.  Otherwise [e] is appended to the recorded errors, and while the
    budget lasts and the pause (warning and sleep) returns, the engine goes
    on with the next turn, where the unit of work is called again as soon as
    the transaction is opened. *)
Theorem unit_of_work_error_propagates mode t0 (a : Attempt V) script errors g
    w w0 t e :
  open_attempt mode a w = (w0, Ret tt) ->
  _transaction (self w0) = Some t ->
  tc_ret (at_unit_of_work a) = Raise e ->
  (isinstance_Exception e = true -> tc_ret (at_rollback a) = Ret tt) ->
  tc_ret (at_close a) = Ret tt ->
  exists w',
    attempt mode a w = (w', Raise e) /\
    log w' = (log w0 ++ EvUnitOfWork ::
                (if isinstance_Exception e then [EvRollback] else []) ++
                [EvTxClose])%list /\
    (record_error errors e = None ->
     retry_loop mode t0 (a :: script) errors g w = Some (w', Raise e)) /\
    (forall errors',
       record_error errors e = Some errors' ->
       (at_clock a - t0 <= max_transaction_retry_time (_config (self w')))%Q
       ->
       at_warning a = Ret tt ->
       sleep_rejects (fst (next g (at_random a))) = None ->
       at_sleep a = Ret tt ->
       errors' = (errors ++ [e])%list /\
       retry_loop mode t0 (a :: script) errors g w =
         retry_loop mode t0 script errors' (snd (next g (at_random a)))
           (paused (fst (next g (at_random a))) (warning_text errors') w') /\
       (forall a' script' w3,
          script = a' :: script' ->
          open_attempt mode a'
            (paused (fst (next g (at_random a))) (warning_text errors') w') =
            (w3, Ret tt) ->
          (exists l,
             log (fst (attempt mode a'
                         (paused (fst (next g (at_random a)))
                            (warning_text errors') w'))) =
               (log w3 ++ EvUnitOfWork :: l)%list) /\
          (forall out,
             retry_loop mode t0 (a :: script) errors g w = Some out ->
             exists l, log (fst out) = (log w3 ++ EvUnitOfWork :: l)%list))).
Proof.
  intros Ho Ht Hu Hr Hc.
  destruct (work_when_unit_of_work_raises t a w0 Hu Hr Hc) as (w' & E & L).
  assert (Ha : attempt mode a w = (w', Raise e))
    by (rewrite (attempt_after_open _ _ _ Ho), Ht; exact E).
  exists w'. split; [exact Ha|]. split; [exact L|]. split.
  - intros He. cbn [retry_loop]. now rewrite Ha, He.
  - intros errors' He Hb Hw Hd Hs.
    pose proof (record_error_snoc _ _ He) as ->.
    pose proof (@retry_step mode t0 a script errors g w w' e Ha He Hb Hw Hd
                  Hs) as Hstep.
    split; [reflexivity|]. split; [exact Hstep|].
    intros a' script' w3 -> Ho'.
    destruct (@attempt_calls_unit_of_work _ _ _ _ Ho') as [l1 E1].
    split; [now exists l1|]. intros out Hout. rewrite Hstep in Hout.
    destruct (@retry_loop_starts_with_attempt _ _ _ _ _ _ _ _ Hout)
      as [l2 E2].
    rewrite E2, E1. eexists. rewrite <- app_assoc. reflexivity.
Qed.

(** C4 (as amended).  A transient error is not retriable exactly when its
    code is Neo.TransientError.Transaction.Terminated or
    Neo.TransientError.Transaction.LockClientStopped.  When a turn of the
    loop ends with a transient error that is not retriable, the engine raises
    it at once.  When it is retriable, the engine appends it to the recorded
    errors, and while the budget lasts and the pause (warning and sleep)
    returns, it retries: the loop goes on with the rest of the script, from
    the session the failed turn left, after a warning that quotes the error
    and a sleep of the delay the generator yields. *)
Theorem transient_error_classification mode t0 (a : Attempt V) script errors
    g w w1 c m :
  attempt mode a w = (w1, Raise (TransientError c m)) ->
  (is_retriable_transient_error (TransientError c m) = false <->
   c = "Neo.TransientError.Transaction.Terminated" \/
   c = "Neo.TransientError.Transaction.LockClientStopped") /\
  (is_retriable_transient_error (TransientError c m) = false ->
   retry_loop mode t0 (a :: script) errors g w =
     Some (w1, Raise (TransientError c m))) /\
  (is_retriable_transient_error (TransientError c m) = true ->
   record_error errors (TransientError c m) =
     Some (errors ++ [TransientError c m])%list /\
   ((at_clock a - t0 <= max_transaction_retry_time (_config (self w1)))%Q ->
    at_warning a = Ret tt ->
    sleep_rejects (fst (next g (at_random a))) = None ->
    at_sleep a = Ret tt ->
    retry_loop mode t0 (a :: script) errors g w =
      retry_loop mode t0 script (errors ++ [TransientError c m])%list
        (snd (next g (at_random a)))
        (paused (fst (next g (at_random a))) m w1))).
Proof.
  intros Ha. split; [apply not_retriable_iff|]. split; intros Hc.
  - cbn [retry_loop]. rewrite Ha. unfold record_error.
    cbn [is_connectivity_error isinstance_TransientError]. now rewrite Hc.
  - assert (Hr : record_error errors (TransientError c m) =
                 Some (errors ++ [TransientError c m])%list).
    { unfold record_error.
      cbn [is_connectivity_error isinstance_TransientError].
      now rewrite Hc. }
    split; [exact Hr|]. intros Hb Hw Hd Hs.
    rewrite (@retry_step mode t0 a script errors g w w1 _ Ha Hr Hb Hw Hd
               Hs).
    unfold warning_text. rewrite last_last. cbn [args String.concat].
    reflexivity.
Qed.


(** C10 (as amended).  Whatever the maximum retry time, the first turn of the
    loop is run before any budget check: a first turn that succeeds makes
    the engine return its result; the unit of work is called in the first
    turn, right after the transaction is opened, whenever opening it
    succeeds; and the log of every outcome of the engine starts with the log
    of the first turn. *)
Theorem first_attempt_is_unconditional mode t0 (a : Attempt V) script w :
  (forall w1 v, attempt mode a w = (w1, Ret v) ->
     _run_transaction mode true t0 (a :: script) w = Some (w1, Ret v)) /\
  (forall w0, open_attempt mode a w = (w0, Ret tt) ->
     exists l,
       log (fst (attempt mode a w)) = (log w0 ++ EvUnitOfWork :: l)%list) /\
  (forall out, _run_transaction mode true t0 (a :: script) w = Some out ->
     exists l, log (fst out) = (log (fst (attempt mode a w)) ++ l)%list).
Proof.
  split; [|split].
  - intros w1 v Ha. unfold _run_transaction. cbn [negb retry_loop].
    now rewrite Ha.
  - intros w0 Ho. now apply attempt_calls_unit_of_work.
  - intros out. unfold _run_transaction. cbn [negb].
    apply retry_loop_starts_with_attempt.
Qed.

End EngineFacts.

Lemma unit_of_work_error_propagates_witness :
  open_attempt WRITE_ACCESS keyerror_turn idle_world =
    (fst (open_attempt WRITE_ACCESS keyerror_turn idle_world), Ret tt) /\
  record_error [] (OtherException "KeyError") = None /\
  outcome (retry_loop WRITE_ACCESS 0 [keyerror_turn; commit_turn] []
             sample_delays idle_world) =
    Some (Raise (OtherException "KeyError")) /\
  open_attempt WRITE_ACCESS lost_turn idle_world =
    (fst (open_attempt WRITE_ACCESS lost_turn idle_world), Ret tt) /\
  record_error [] (ServiceUnavailable "connection lost") =
    Some [ServiceUnavailable "connection lost"] /\
  (at_clock lost_turn - 0 <= max_transaction_retry_time sample_config)%Q /\
  sleep_rejects (fst (next sample_delays (at_random lost_turn))) = None /\
  retry_loop WRITE_ACCESS 0 [lost_turn; commit_turn] [] sample_delays
    idle_world =
    retry_loop WRITE_ACCESS 0 [commit_turn]
      [ServiceUnavailable "connection lost"]
      (snd (next sample_delays (at_random lost_turn)))
      (paused (fst (next sample_delays (at_random lost_turn)))
         "connection lost" (fst (attempt WRITE_ACCESS lost_turn idle_world)))
  /\
  calls (retry_loop WRITE_ACCESS 0 [lost_turn; commit_turn] [] sample_delays
           idle_world) =
    ["acquire"; "_begin"; "unit_of_work"; "rollback"; "_close";
     "warning"; "sleep";
     "acquire"; "_begin"; "unit_of_work"; "commit"; "_close"].
Proof.
  assert (Hb : (at_clock lost_turn - 0 <=
                max_transaction_retry_time sample_config)%Q)
    by (vm_compute; discriminate).
  split; [reflexivity|]. split; [reflexivity|]. split.
  { destruct (@unit_of_work_error_propagates nat WRITE_ACCESS 0 keyerror_turn
                [commit_turn] [] sample_delays idle_world
                (fst (open_attempt WRITE_ACCESS keyerror_turn idle_world))
                {| tx_id := 1; tx_closed := false; tx_bookmark := None |}
                (OtherException "KeyError")
                eq_refl eq_refl eq_refl (fun _ => eq_refl) eq_refl)
      as (w' & _ & _ & Hnow & _).
    rewrite (Hnow eq_refl). reflexivity. }
  split; [reflexivity|]. split; [reflexivity|]. split; [exact Hb|].
  split; [reflexivity|].
  destruct (@unit_of_work_error_propagates nat WRITE_ACCESS 0 lost_turn
              [commit_turn] [] sample_delays idle_world
              (fst (open_attempt WRITE_ACCESS lost_turn idle_world))
              {| tx_id := 1; tx_closed := false; tx_bookmark := None |}
              (ServiceUnavailable "connection lost")
              eq_refl eq_refl eq_refl (fun _ => eq_refl) eq_refl)
    as (w' & Ha & _ & _ & Hretry).
  assert (Hw : w' = fst (attempt WRITE_ACCESS lost_turn idle_world))
    by (rewrite Ha; reflexivity).
  subst w'.
  destruct (Hretry [ServiceUnavailable "connection lost"] eq_refl Hb eq_refl
              eq_refl eq_refl) as (_ & Hstep & _).
  split; [exact Hstep|]. rewrite Hstep. vm_compute. reflexivity.
Defined.

(** C3, the claim as stated fails, in four ways.  A ServiceUnavailable
    raised by the unit of work is recorded: the engine warns, sleeps and
    calls the unit of work a second time, whose result it returns.  An
    exception outside Exception (KeyboardInterrupt) is re-raised without a
    rollback.  When the rollback itself raises, its error takes the place of
    the error of the unit of work, here a ServiceUnavailable for a KeyError,
    which is then retried.  And when [_close] raises, its error is what the
    engine raises. *)
Lemma unit_of_work_error_is_not_always_reraised :
  (tc_ret (at_unit_of_work lost_turn) =
     Raise (ServiceUnavailable "connection lost") /\
   outcome (_run_transaction WRITE_ACCESS true 0 [lost_turn; commit_turn]
              idle_world) = Some (Ret 7%nat) /\
   calls (_run_transaction WRITE_ACCESS true 0 [lost_turn; commit_turn]
            idle_world) =
     ["acquire"; "_begin"; "unit_of_work"; "rollback"; "_close";
      "warning"; "sleep";
      "acquire"; "_begin"; "unit_of_work"; "commit"; "_close"]) /\
  (tc_ret (at_unit_of_work interrupted_turn) =
     Raise (BaseExceptionOnly "KeyboardInterrupt") /\
   outcome (_run_transaction WRITE_ACCESS true 0
              [interrupted_turn; commit_turn] idle_world) =
     Some (Raise (BaseExceptionOnly "KeyboardInterrupt")) /\
   calls (_run_transaction WRITE_ACCESS true 0
            [interrupted_turn; commit_turn] idle_world) =
     ["acquire"; "_begin"; "unit_of_work"; "_close"]) /\
  (tc_ret (at_unit_of_work messy_turn) = Raise (OtherException "KeyError") /\
   outcome (_run_transaction WRITE_ACCESS true 0 [messy_turn; commit_turn]
              idle_world) = Some (Ret 7%nat) /\
   calls (_run_transaction WRITE_ACCESS true 0 [messy_turn; commit_turn]
            idle_world) =
     ["acquire"; "_begin"; "unit_of_work"; "rollback"; "_close";
      "warning"; "sleep";
      "acquire"; "_begin"; "unit_of_work"; "commit"; "_close"]) /\
  (tc_ret (at_unit_of_work unclosable_turn) =
     Raise (OtherException "KeyError") /\
   outcome (_run_transaction WRITE_ACCESS true 0
              [unclosable_turn; commit_turn] idle_world) =
     Some (Raise (Neo4jError "Neo.ClientError.X" "refused"))).
Proof. repeat split; vm_compute; reflexivity. Qed.

Lemma transient_error_classification_witness :
  attempt WRITE_ACCESS (deadlock_turn 1) idle_world =
    (fst (attempt WRITE_ACCESS (deadlock_turn 1) idle_world),
     Raise (TransientError
              "Neo.TransientError.Transaction.DeadlockDetected" "deadlock"))
  /\
  is_retriable_transient_error
    (TransientError "Neo.TransientError.Transaction.DeadlockDetected"
       "deadlock") = true /\
  (at_clock (deadlock_turn 1) - 0 <=
   max_transaction_retry_time sample_config)%Q /\
  sleep_rejects (fst (next sample_delays (at_random (deadlock_turn 1)))) =
    None /\
  retry_loop WRITE_ACCESS 0 [deadlock_turn 1; commit_turn] [] sample_delays
    idle_world =
    retry_loop WRITE_ACCESS 0 [commit_turn]
      [TransientError "Neo.TransientError.Transaction.DeadlockDetected"
         "deadlock"]
      (snd (next sample_delays (at_random (deadlock_turn 1))))
      (paused (fst (next sample_delays (at_random (deadlock_turn 1))))
         "deadlock"
         (fst (attempt WRITE_ACCESS (deadlock_turn 1) idle_world))) /\
  outcome (retry_loop WRITE_ACCESS 0 [deadlock_turn 1; commit_turn] []
             sample_delays idle_world) = Some (Ret 7%nat) /\
  calls (retry_loop WRITE_ACCESS 0 [deadlock_turn 1; commit_turn] []
           sample_delays idle_world) =
    ["acquire"; "_begin"; "unit_of_work"; "rollback"; "_close";
     "warning"; "sleep";
     "acquire"; "_begin"; "unit_of_work"; "commit"; "_close"].
Proof.
  assert (Hb : (at_clock (deadlock_turn 1) - 0 <=
                max_transaction_retry_time sample_config)%Q)
    by (vm_compute; discriminate).
  assert (Ha : attempt WRITE_ACCESS (deadlock_turn 1) idle_world =
               (fst (attempt WRITE_ACCESS (deadlock_turn 1) idle_world),
                Raise (TransientError
                         "Neo.TransientError.Transaction.DeadlockDetected"
                         "deadlock")))
    by (vm_compute; reflexivity).
  split; [exact Ha|]. split; [reflexivity|]. split; [exact Hb|].
  split; [reflexivity|].
  pose proof (proj2 (proj2 (proj2
    (@transient_error_classification nat WRITE_ACCESS 0 (deadlock_turn 1)
       [commit_turn] [] sample_delays idle_world
       (fst (attempt WRITE_ACCESS (deadlock_turn 1) idle_world))
       "Neo.TransientError.Transaction.DeadlockDetected" "deadlock" Ha))
    eq_refl) Hb eq_refl eq_refl eq_refl) as Hstep.
  split; [exact Hstep|]. rewrite Hstep.
  split; vm_compute; reflexivity.
Defined.

(** C4, the claim as stated fails: a retriable transient error is recorded
    but not retried when the budget is spent (a deadlock met after 31
    seconds of a budget of 30 is raised, and the next turn is not run), nor
    when the pause raises (with a negative initial delay [sleep] raises
    ValueError, which ends the managed transaction). *)
Lemma retriable_error_is_not_always_retried :
  is_retriable_transient_error
    (TransientError "Neo.TransientError.Transaction.DeadlockDetected"
       "deadlock") = true /\
  outcome (_run_transaction WRITE_ACCESS true 0
             [deadlock_turn 31; commit_turn] idle_world) =
    Some (Raise (TransientError
                   "Neo.TransientError.Transaction.DeadlockDetected"
                   "deadlock")) /\
  calls (_run_transaction WRITE_ACCESS true 0
           [deadlock_turn 31; commit_turn] idle_world) =
    ["acquire"; "_begin"; "unit_of_work"; "rollback"; "_close"] /\
  outcome (_run_transaction WRITE_ACCESS true 0
             [deadlock_turn 1; commit_turn] backwards_world) =
    Some (Raise (ValueError "sleep length must be non-negative")) /\
  calls (_run_transaction WRITE_ACCESS true 0
           [deadlock_turn 1; commit_turn] backwards_world) =
    ["acquire"; "_begin"; "unit_of_work"; "rollback"; "_close";
     "warning"; "sleep"].
Proof. repeat split; vm_compute; reflexivity. Qed.


Lemma first_attempt_is_unconditional_witness :
  attempt WRITE_ACCESS commit_turn impatient_world =
    (fst (attempt WRITE_ACCESS commit_turn impatient_world), Ret 7%nat) /\
  budget_exceeded impatient_config 0 (at_clock commit_turn) = true /\
  outcome (_run_transaction WRITE_ACCESS true 0 [commit_turn]
             impatient_world) = Some (Ret 7%nat).
Proof.
  assert (Ha : attempt WRITE_ACCESS commit_turn impatient_world =
               (fst (attempt WRITE_ACCESS commit_turn impatient_world),
                Ret 7%nat))
    by (vm_compute; reflexivity).
  split; [exact Ha|]. split; [reflexivity|].
  rewrite (proj1
    (@first_attempt_is_unconditional nat WRITE_ACCESS 0 commit_turn []
       impatient_world)
    (fst (attempt WRITE_ACCESS commit_turn impatient_world)) 7%nat Ha).
  reflexivity.
Defined.

(** C10, the claim as stated fails: with no connection to be had and no time
    for retries, the engine raises after the first turn without having
    called the unit of work. *)
Lemma budget_check_can_precede_unit_of_work :
  outcome (_run_transaction WRITE_ACCESS true 0
             [unreachable_turn "no route" 1] impatient_world) =
    Some (Raise (ServiceUnavailable "no route")) /\
  calls (_run_transaction WRITE_ACCESS true 0
           [unreachable_turn "no route" 1] impatient_world) = ["acquire"].
Proof. split; vm_compute; reflexivity. Qed.

(** ** The session *)

Lemma new_session_inv cfg : session_inv (__init__ cfg) = true.
Proof. reflexivity. Qed.

(** The completion callbacks keep the invariant. *)
Lemma callbacks_keep_inv w :
  session_inv (self w) = true ->
  session_inv (self (fst (_result_closed w))) = true /\
  session_inv (self (fst (_transaction_closed w))) = true.
Proof.
  intros Hi. change (inv_h (handles w) = true) in Hi.
  destruct (handles w) as [[c t] a] eqn:Hh.
  destruct (result_closed_yields Hh) as (w1 & E1 & H1).
  destruct (transaction_closed_yields Hh) as (w2 & E2 & H2).
  rewrite E1, E2. cbn [fst].
  change (inv_h (handles w1) = true /\ inv_h (handles w2) = true).
  rewrite H1, H2. destruct c, t, a; try discriminate; split; reflexivity.
Qed.

(** C1 (as amended).  [run], [commit_transaction], [rollback_transaction] and
    [next_bookmarks] keep the session invariant (at most one of [_autoResult]
    and [_transaction] is set, and [_connection] is set whenever one of them
    is) whatever the collaborators do.  [begin_transaction] and [close] keep
    it provided that, when a result is outstanding, the call that drains it
    ([_detach], [consume]) has run the completion callback of the result
    whenever it returns normally and, for [close], that the session is not
    in the error state. *)
Theorem session_invariant_preserved (op : Operation) (w : World) :
  session_inv (self w) = true ->
  drains_complete op (self w) = true ->
  session_inv (self (perform op w)) = true.
Proof.
  intros Hi Hc. destruct op; cbn [perform drains_complete] in *.
  - exact (run_keeps query env w Hi).
  - apply (begin_transaction_keeps env w Hi). intros Ha.
    rewrite Ha in Hc. exact Hc.
  - exact (commit_transaction_keeps commit w Hi).
  - exact (rollback_transaction_keeps rollback w Hi).
  - exact (next_bookmarks_keeps detach w Hi).
  - exact (close_keeps env w Hi Hc).
Qed.

Lemma session_invariant_preserved_witness :
  session_inv (self after_first_run) = true /\
  drains_complete (BeginTransaction begin_env) (self after_first_run) = true /\
  session_inv
    (self (perform (BeginTransaction begin_env) after_first_run)) = true.
Proof.
  split; [reflexivity|]. split; [reflexivity|].
  apply session_invariant_preserved; reflexivity.
Defined.

(** [begin_transaction] does not clear the result handle itself: were
    [_detach] to return without the completion callback having run, both
    handles would be set afterwards. *)
Lemma begin_transaction_relies_on_callback :
  handles both_outstanding = (true, true, true).
Proof. vm_compute. reflexivity. Qed.

(** C1, the claim as stated fails: the first [close] ends in the error state
    (the callback run by [consume] has released the connection, and the
    flush that follows raises), so the second [close] leaves the result of
    the second [run] alone and releases its connection: the result handle is
    set and the connection is not.  The same happens when the error state
    was set by [__exit__]. *)
Lemma close_in_error_state_breaks_invariant :
  session_inv (self idle_world) = true /\
  session_inv (self after_first_run) = true /\
  session_inv (self after_first_close) = true /\
  _state (self after_first_close) = Some "error_state" /\
  session_inv (self after_second_run) = true /\
  handles after_second_close = (false, false, true) /\
  session_inv (self after_second_close) = false /\
  session_inv (self after_block_run) = true /\
  _state (self after_block_run) = Some "error_state" /\
  handles after_block_close = (false, false, true) /\
  session_inv (self after_block_close) = false.
Proof. repeat split; vm_compute; reflexivity. Qed.

(** C2, the code at the failing input: with a transaction open, [run] of a
    non-empty query executes [raise "hell"], which raises the interpreter's
    TypeError for a value that is not an exception, not a usage error of the
    driver; the session is left as it was. *)
Lemma run_in_open_transaction_raises_TypeError :
  is_set (_transaction (self in_transaction)) = true /\
  run (QueryStr "RETURN 1") (run_env 2%nat 2%nat) in_transaction =
    (in_transaction,
     Raise (TypeError "exceptions must derive from BaseException")).
Proof. split; vm_compute; reflexivity. Qed.

Lemma finalize_call {R} t ev attr (o : TxCall R) w :
  _transaction (self w) = Some t ->
  exists w',
    try_finally (call_tx (Some t) ev attr o) _transaction_closed w =
      (w', tc_ret o) /\
    finalized (tc_bookmark o) w w'.
Proof.
  destruct w as [[cfg c tx a b st] l rl]. cbn. intros ->.
  destruct o as [cl bm fired r]. unfold finalized, collected.
  exec. cbn. rewrite Nat.eqb_refl. cbn.
  destruct fired, bm as [s|], c as [cx|]; cbn;
    try destruct (String.eqb s EmptyString); cbn; destruct r; cbn;
    eexists; (split; [reflexivity|]); cbn; rewrite ?app_nil_r;
    repeat split; reflexivity.
Qed.

(** C6.  With no transaction open, [commit_transaction] and
    [rollback_transaction] raise TransactionError and leave the session as it
    was.  With a transaction open, whether the delegated call returns or
    raises, the outcome of the operation is the outcome of that call and the
    session is finalized: the bookmark of the transaction is collected into
    the Bookmark Store, the transaction handle is cleared and the connection
    is released. *)
Theorem commit_and_rollback_finalize (w : World) (commit : TxCall Bookmark)
    (rollback : TxCall unit) :
  (_transaction (self w) = None ->
     commit_transaction commit w =
       (w, Raise (TransactionError "No transaction to commit")) /\
     rollback_transaction rollback w =
       (w, Raise (TransactionError "No transaction to rollback"))) /\
  (forall t, _transaction (self w) = Some t ->
     (exists w', commit_transaction commit w = (w', tc_ret commit) /\
                 finalized (tc_bookmark commit) w w') /\
     (exists w', rollback_transaction rollback w = (w', tc_ret rollback) /\
                 finalized (tc_bookmark rollback) w w')).
Proof.
  split.
  - intros H. unfold commit_transaction, rollback_transaction, bind, get.
    rewrite H. split; reflexivity.
  - intros t H. unfold commit_transaction, rollback_transaction, bind, get.
    rewrite H. cbn [is_set negb]. split; apply finalize_call, H.
Qed.

Lemma commit_and_rollback_finalize_witness :
  _transaction (self idle_world) = None /\
  commit_transaction (closes (Some "bm1") (Ret (Some "bm1"))) idle_world =
    (idle_world, Raise (TransactionError "No transaction to commit")) /\
  is_set (_transaction (self in_transaction)) = true /\
  exists w',
    commit_transaction
      (stays_open (Raise (Neo4jError "Neo.ClientError.X" "refused")))
      in_transaction =
      (w', Raise (Neo4jError "Neo.ClientError.X" "refused")) /\
    finalized None in_transaction w'.
Proof.
  split; [reflexivity|]. split.
  - apply (proj1 (commit_and_rollback_finalize idle_world
                    (closes (Some "bm1") (Ret (Some "bm1")))
                    (closes None (Ret tt)))).
    reflexivity.
  - split; [reflexivity|].
    apply (proj2 (commit_and_rollback_finalize in_transaction
                    (stays_open
                       (Raise (Neo4jError "Neo.ClientError.X" "refused")))
                    (closes None (Ret tt)))
             {| tx_id := 1; tx_closed := false; tx_bookmark := None |}).
    reflexivity.
Defined.





(** C9 (as amended).  On a session with a transaction open and no result
    outstanding, as on every session with a transaction open that satisfies
    the invariant, [begin_transaction] raises TransactionError and changes
    nothing: the connection, the result handle, the transaction handle, the
    Bookmark Store and the log of calls are as before.  With a result
    outstanding as well, the result is detached first: when [_detach]
    returns, [begin_transaction] raises TransactionError all the same, and
    the session is the one the detaching left. *)
Theorem begin_transaction_when_open (env : BeginEnv) (w : World)
    (t : Transaction) :
  _transaction (self w) = Some t ->
  (_autoResult (self w) = None ->
   begin_transaction env w =
     (w, Raise (TransactionError "Explicit transaction already open"))) /\
  (session_inv (self w) = true ->
   begin_transaction env w =
     (w, Raise (TransactionError "Explicit transaction already open"))) /\
  (forall r,
     _autoResult (self w) = Some r ->
     rc_ret (be_detach env) = Ret tt ->
     begin_transaction env w =
       (fst (call_autoResult EvDetach "_detach" (be_detach env) w),
        Raise (TransactionError "Explicit transaction already open"))).
Proof.
  intros Ht.
  assert (H0 : _autoResult (self w) = None ->
               begin_transaction env w =
                 (w, Raise (TransactionError
                              "Explicit transaction already open"))).
  { destruct w as [[cfg c tx a b st] l rl]. cbn in *. intros ->.
    subst tx. reflexivity. }
  split; [exact H0|]. split.
  - intros Hi. apply H0.
    destruct w as [[cfg c tx a b st] l rl]. unfold session_inv in Hi.
    cbn in *. subst tx. destruct a; [destruct c; discriminate|reflexivity].
  - intros r Hr Hd.
    destruct w as [[cfg c tx a b st] l rl]. cbn in *. subst tx a.
    destruct env as [[db df dr] op]. cbn in Hd. subst dr.
    unfold begin_transaction. exec. cbn.
    destruct df, db as [s|], c as [cx|]; cbn;
      try destruct (String.eqb s EmptyString); reflexivity.
Qed.

Lemma begin_transaction_when_open_witness :
  session_inv (self in_transaction) = true /\
  is_set (_transaction (self in_transaction)) = true /\
  _autoResult (self in_transaction) = None /\
  begin_transaction begin_env in_transaction =
    (in_transaction,
     Raise (TransactionError "Explicit transaction already open")) /\
  is_set (_autoResult (self stranded)) = true /\
  snd (begin_transaction begin_env stranded) =
    Raise (TransactionError "Explicit transaction already open").
Proof.
  split; [reflexivity|]. split; [reflexivity|]. split; [reflexivity|].
  split.
  - apply (proj1 (begin_transaction_when_open begin_env in_transaction
                    (t := {| tx_id := 1; tx_closed := false;
                             tx_bookmark := None |}) eq_refl)).
    reflexivity.
  - split; [reflexivity|].
    rewrite (proj2 (proj2
      (begin_transaction_when_open begin_env stranded
         (t := {| tx_id := 2; tx_closed := false; tx_bookmark := None |})
         eq_refl))
      {| result_id := 1; result_bookmark := None |} eq_refl eq_refl).
    reflexivity.
Defined.

(** C9, the claim as stated fails when a result is outstanding beside the
    transaction: the result is detached before the transaction is looked
    at, so the failed call has collected the bookmark of the result, cleared
    its handle and released the connection.  Such a session is left by a
    query followed by a managed transaction that the server refuses to
    begin, and by a [begin_transaction] whose [_detach] returns with the
    result incomplete. *)
Lemma begin_transaction_detaches_before_check :
  (handles stranded = (true, true, true) /\
   _bookmarks (self stranded) = [] /\
   snd (begin_transaction
          {| be_detach := completed (Some "bm9");
             be_open := opens 3%nat 3%nat |} stranded) =
     Raise (TransactionError "Explicit transaction already open") /\
   handles
     (fst (begin_transaction
             {| be_detach := completed (Some "bm9");
                be_open := opens 3%nat 3%nat |} stranded)) =
     (false, true, false) /\
   _bookmarks
     (self
        (fst (begin_transaction
                {| be_detach := completed (Some "bm9");
                   be_open := opens 3%nat 3%nat |} stranded))) =
     ["bm9"] /\
   released
     (fst (begin_transaction
             {| be_detach := completed (Some "bm9");
                be_open := opens 3%nat 3%nat |} stranded)) <>
     released stranded) /\
  (handles both_outstanding = (true, true, true) /\
   snd (begin_transaction
          {| be_detach := completed (Some "bm9");
             be_open := opens 3%nat 3%nat |} both_outstanding) =
     Raise (TransactionError "Explicit transaction already open") /\
   handles
     (fst (begin_transaction
             {| be_detach := completed (Some "bm9");
                be_open := opens 3%nat 3%nat |} both_outstanding)) =
     (false, true, false) /\
   _bookmarks
     (self
        (fst (begin_transaction
                {| be_detach := completed (Some "bm9");
                   be_open := opens 3%nat 3%nat |} both_outstanding))) =
     ["bm9"]).
Proof. repeat split; vm_compute; try reflexivity; discriminate. Qed.

(** ** The retry delay generator *)

(** The generator in binary64, at three inputs.  With initial delay 1.0,
    multiplier 2.0, jitter factor 0.5 and the largest draw below one, the
    first value is 1.5, the upper end [1.0 * (1 + 0.5)] itself.  With the
    same parameters the delay overflows, and from the 1025th value on the
    generator yields NaN.  With initial delay 0.1, jitter factor 0.1 and a
    draw of zero the first value is below [0.1 * (1 - 0.1)] as binary64
    computes it. *)
Lemma binary64_delays :
  emitted (retry_delay_generator 1 2 0.5)
    (fun _ => 0x1.fffffffffffffp-1%float) 0 = 1.5%float /\
  is_nan (emitted (retry_delay_generator 1 2 0.5) halves 1024) = true /\
  (emitted (retry_delay_generator 0.1 2 0.1) (fun _ => 0%float) 0 <?
   0.1 * (1 - 0.1))%float = true.
Proof. repeat split; vm_compute; reflexivity. Qed.


(** * Further properties of the session

    ** Closing a session *)

Ltac ops :=
  unfold run, begin_transaction, commit_transaction, rollback_transaction,
    next_bookmarks, close, __exit__, _open_transaction, _connect;
  exec.

(** X1.  With a connection held and neither a transaction nor a result
    outstanding, [close] releases the connection whatever the flush does: it
    returns normally when [send_all] and [fetch_all] return or raise one of
    the four errors listed in [close], raises the error of the flush
    otherwise, and in every case the connection handle is cleared, the
    connection is handed back and the Bookmark Store is as before. *)
Theorem close_releases_whatever_the_flush_does (env : CloseEnv) (w : World)
    (c : Connection) :
  _connection (self w) = Some c ->
  _transaction (self w) = None ->
  _autoResult (self w) = None ->
  exists w',
    close env w =
      (w',
       match cc_ret (cl_send_all env), cc_ret (cl_fetch_all env) with
       | Raise e, _ | Ret _, Raise e =>
           if swallowed_by_close e then Ret tt else Raise e
       | Ret _, Ret _ => Ret tt
       end) /\
    _connection (self w') = None /\
    released w' = (released w ++ [c])%list /\
    _bookmarks (self w') = _bookmarks (self w).
Proof.
  destruct w as [[cfg cx t a b st] l rl]. cbn. intros -> -> ->.
  destruct env as [co cq cr [f1 r1] [f2 r2]]. ops. cbn.
  destruct f1, r1 as [[]|e1]; cbn;
    try (destruct (swallowed_by_close e1); cbn);
    try (destruct f2, r2 as [[]|e2]; cbn;
         try (destruct (swallowed_by_close e2); cbn));
    eexists; repeat split; reflexivity.
Qed.

Lemma close_releases_whatever_the_flush_does_witness :
  _connection (self connected_world) = Some 3%nat /\
  _transaction (self connected_world) = None /\
  _autoResult (self connected_world) = None /\
  exists w',
    close lossy_close_env connected_world = (w', Ret tt) /\
    _connection (self w') = None /\
    released w' = (released connected_world ++ [3%nat])%list /\
    _bookmarks (self w') = _bookmarks (self connected_world).
Proof.
  split; [reflexivity|]. split; [reflexivity|]. split; [reflexivity|].
  apply (@close_releases_whatever_the_flush_does lossy_close_env
           connected_world 3%nat); reflexivity.
Defined.

(** X2.  [close] on a session with a transaction open asks the transaction
    whether it is closed, sends a rollback on the connection when it is not,
    drops the transaction handle, flushes the connection and releases it;
    the session state is reset.  The calls appear in the log in that
    order. *)
Theorem close_rolls_back_open_transaction (env : CloseEnv) (w : World)
    (c : Connection) (t : Transaction) (b : bool) :
  _connection (self w) = Some c ->
  _transaction (self w) = Some t ->
  _autoResult (self w) = None ->
  tc_ret (cl_closed env) = Ret b ->
  tc_fired (cl_closed env) = false ->
  (b = false -> cc_ret (cl_rollback env) = Ret tt) ->
  cc_ret (cl_send_all env) = Ret tt ->
  cc_ret (cl_fetch_all env) = Ret tt ->
  exists w',
    close env w = (w', Ret tt) /\
    log w' =
      (log w ++ EvClosedQuery :: (if b then [] else [EvConnRollback]) ++
       [EvSendAll; EvFetchAll])%list /\
    _transaction (self w') = None /\
    _connection (self w') = None /\
    released w' = (released w ++ [c])%list /\
    _state (self w') = None.
Proof.
  destruct w as [[cfg cx tx a bm st] l rl]. cbn. intros -> -> ->.
  destruct env as [co [tcl tbm tf tr] [f0 r0] [f1 r1] [f2 r2]]. cbn.
  intros -> -> Hr -> ->. ops. cbn. rewrite Nat.eqb_refl. cbn.
  destruct b; cbn.
  - destruct f1, f2; cbn; eexists; repeat split; cbn;
      rewrite <- ?app_assoc; reflexivity.
  - rewrite (Hr eq_refl).
    destruct f0, f1, f2; cbn; eexists; repeat split; cbn;
      rewrite <- ?app_assoc; reflexivity.
Qed.

Lemma close_rolls_back_open_transaction_witness :
  _connection (self in_transaction) = Some 1%nat /\
  is_set (_transaction (self in_transaction)) = true /\
  exists w',
    close (close_env streaming) in_transaction = (w', Ret tt) /\
    log w' =
      (log in_transaction ++
       [EvClosedQuery; EvConnRollback; EvSendAll; EvFetchAll])%list /\
    _transaction (self w') = None /\
    _connection (self w') = None /\
    released w' = (released in_transaction ++ [1%nat])%list /\
    _state (self w') = None.
Proof.
  split; [reflexivity|]. split; [reflexivity|].
  apply (@close_rolls_back_open_transaction (close_env streaming)
           in_transaction 1%nat
           {| tx_id := 1; tx_closed := false; tx_bookmark := None |} false);
    reflexivity.
Defined.

(** X3.  The transaction part of [close] is outside the [try ... finally]
    that releases the connection: when [closed()] raises, or when the
    transaction is open and [connection.rollback()] raises, [close] raises
    that error and the session still holds the connection, which is not
    handed back, and the transaction handle. *)
Theorem close_keeps_connection_when_rollback_raises (env : CloseEnv)
    (w : World) (c : Connection) (t : Transaction) (e : exn) :
  _connection (self w) = Some c ->
  _transaction (self w) = Some t ->
  _autoResult (self w) = None ->
  tc_fired (cl_closed env) = false ->
  tc_ret (cl_closed env) = Raise e \/
  (tc_ret (cl_closed env) = Ret false /\
   cc_ret (cl_rollback env) = Raise e) ->
  exists w',
    close env w = (w', Raise e) /\
    _connection (self w') = Some c /\
    is_set (_transaction (self w')) = true /\
    released w' = released w.
Proof.
  destruct w as [[cfg cx tx a bm st] l rl]. cbn. intros -> -> ->.
  destruct env as [co [tcl tbm tf tr] [f0 r0] [f1 r1] [f2 r2]]. cbn.
  intros -> [->|[-> ->]]; ops; cbn; rewrite Nat.eqb_refl; cbn.
  - eexists; repeat split; reflexivity.
  - destruct f0; cbn; eexists; repeat split; reflexivity.
Qed.

Lemma close_keeps_connection_when_rollback_raises_witness :
  _connection (self in_transaction) = Some 1%nat /\
  is_set (_transaction (self in_transaction)) = true /\
  cc_ret (cl_rollback refusing_close_env) =
    Raise (ServiceUnavailable "gone") /\
  exists w',
    close refusing_close_env in_transaction =
      (w', Raise (ServiceUnavailable "gone")) /\
    _connection (self w') = Some 1%nat /\
    is_set (_transaction (self w')) = true /\
    released w' = released in_transaction.
Proof.
  split; [reflexivity|]. split; [reflexivity|]. split; [reflexivity|].
  apply (@close_keeps_connection_when_rollback_raises refusing_close_env
           in_transaction 1%nat
           {| tx_id := 1; tx_closed := false; tx_bookmark := None |}
           (ServiceUnavailable "gone")); try reflexivity.
  right. split; reflexivity.
Defined.

(** X4.  Outside the error state, an exception (a subclass of Exception)
    raised by [consume] without the completion callback having run is
    swallowed by [close]: the result handle is dropped, the connection is
    flushed and released, the Bookmark Store is as before, [close] returns
    normally and the session state ends reset. *)
Theorem close_swallows_consume_error (env : CloseEnv) (w : World)
    (c : Connection) (r : Result) (e : exn) :
  _connection (self w) = Some c ->
  _transaction (self w) = None ->
  _autoResult (self w) = Some r ->
  state_is (_state (self w)) "error_state" = false ->
  rc_ret (cl_consume env) = Raise e ->
  rc_fired (cl_consume env) = false ->
  isinstance_Exception e = true ->
  cc_ret (cl_send_all env) = Ret tt ->
  cc_ret (cl_fetch_all env) = Ret tt ->
  exists w',
    close env w = (w', Ret tt) /\
    log w' = (log w ++ [EvConsume; EvSendAll; EvFetchAll])%list /\
    _autoResult (self w') = None /\
    _connection (self w') = None /\
    released w' = (released w ++ [c])%list /\
    _bookmarks (self w') = _bookmarks (self w) /\
    _state (self w') = None.
Proof.
  destruct w as [[cfg cx tx a bm st] l rl]. cbn. intros -> -> -> Hst.
  destruct env as [[cb cf cr] cq cro [f1 r1] [f2 r2]]. cbn.
  intros -> -> He -> ->. ops. cbn. rewrite Hst. cbn. rewrite He. cbn.
  destruct f1, f2; cbn; eexists; repeat split; cbn;
    rewrite <- ?app_assoc; reflexivity.
Qed.

Lemma close_swallows_consume_error_witness :
  _connection (self after_first_run) = Some 1%nat /\
  is_set (_autoResult (self after_first_run)) = true /\
  _state (self after_first_run) = None /\
  exists w',
    close (close_env broken_stream) after_first_run = (w', Ret tt) /\
    log w' =
      (log after_first_run ++ [EvConsume; EvSendAll; EvFetchAll])%list /\
    _autoResult (self w') = None /\
    _connection (self w') = None /\
    released w' = (released after_first_run ++ [1%nat])%list /\
    _bookmarks (self w') = _bookmarks (self after_first_run) /\
    _state (self w') = None.
Proof.
  split; [reflexivity|]. split; [reflexivity|]. split; [reflexivity|].
  apply (@close_swallows_consume_error (close_env broken_stream)
           after_first_run 1%nat
           {| result_id := 1; result_bookmark := None |}
           (ServiceUnavailable "gone")); reflexivity.
Defined.

(** X5.  Outside the error state, when [consume] returns after the
    completion callback of the result has run, the callback has collected
    the bookmark of the result, dropped the result handle and released the
    connection; the statement after [consume] then fails on the missing
    result and puts the session in the error state, and the flush fails on
    the missing connection: [close] raises AttributeError, with [consume]
    the only call made and the session left in the error state. *)
Theorem close_after_consume_completes (env : CloseEnv) (w : World)
    (c : Connection) (r : Result) :
  _connection (self w) = Some c ->
  _transaction (self w) = None ->
  _autoResult (self w) = Some r ->
  state_is (_state (self w)) "error_state" = false ->
  rc_ret (cl_consume env) = Ret tt ->
  rc_fired (cl_consume env) = true ->
  exists w',
    close env w = (w', Raise (NoneType_has_no "send_all")) /\
    log w' = (log w ++ [EvConsume])%list /\
    _autoResult (self w') = None /\
    _connection (self w') = None /\
    released w' = (released w ++ [c])%list /\
    _bookmarks (self w') =
      collected (rc_bookmark (cl_consume env)) (_bookmarks (self w)) /\
    _state (self w') = Some "error_state".
Proof.
  destruct w as [[cfg cx tx a bm st] l rl]. cbn. intros -> -> -> Hst.
  destruct env as [[cb cf cr] cq cro s1 s2]. cbn.
  intros -> ->. unfold collected. ops. cbn. rewrite Hst. cbn.
  destruct cb as [s|]; cbn; try destruct (String.eqb s EmptyString); cbn;
    eexists; repeat split; reflexivity.
Qed.

Lemma close_after_consume_completes_witness :
  _connection (self after_first_run) = Some 1%nat /\
  is_set (_autoResult (self after_first_run)) = true /\
  _state (self after_first_run) = None /\
  exists w',
    close (close_env (completed (Some "bm1"))) after_first_run =
      (w', Raise (NoneType_has_no "send_all")) /\
    log w' = (log after_first_run ++ [EvConsume])%list /\
    _autoResult (self w') = None /\
    _connection (self w') = None /\
    released w' = (released after_first_run ++ [1%nat])%list /\
    _bookmarks (self w') =
      collected (Some "bm1") (_bookmarks (self after_first_run)) /\
    _state (self w') = Some "error_state".
Proof.
  split; [reflexivity|]. split; [reflexivity|]. split; [reflexivity|].
  apply (@close_after_consume_completes (close_env (completed (Some "bm1")))
           after_first_run 1%nat
           {| result_id := 1; result_bookmark := None |}); reflexivity.
Defined.

(** X6.  In the error state [close] never consumes an outstanding result:
    whatever the flush does, the only calls it makes are [send_all] and
    [fetch_all].  When both return without the completion callback of the
    result having run, [close] returns normally, the connection is released
    and the state reset, the Bookmark Store is as before, and the result
    handle is still set afterwards. *)
Theorem close_in_error_state_skips_result (env : CloseEnv) (w : World)
    (c : Connection) (r : Result) :
  _connection (self w) = Some c ->
  _transaction (self w) = None ->
  _autoResult (self w) = Some r ->
  _state (self w) = Some "error_state" ->
  (exists l,
     log (fst (close env w)) = (log w ++ l)%list /\
     (l = [EvSendAll] \/ l = [EvSendAll; EvFetchAll])) /\
  (cc_fired (cl_send_all env) = false ->
   cc_ret (cl_send_all env) = Ret tt ->
   cc_fired (cl_fetch_all env) = false ->
   cc_ret (cl_fetch_all env) = Ret tt ->
   exists w',
     close env w = (w', Ret tt) /\
     log w' = (log w ++ [EvSendAll; EvFetchAll])%list /\
     _autoResult (self w') = Some r /\
     _connection (self w') = None /\
     released w' = (released w ++ [c])%list /\
     _bookmarks (self w') = _bookmarks (self w) /\
     _state (self w') = None).
Proof.
  destruct w as [[cfg cx tx a bm st] l rl]. cbn. intros -> -> -> ->.
  destruct env as [co cq cro [f1 r1] [f2 r2]]. cbn. split.
  - destruct r as [ri [s|]]; ops; cbn;
      destruct f1, r1 as [[]|e1]; cbn;
      try (destruct (String.eqb s EmptyString); cbn);
      try (destruct (swallowed_by_close e1); cbn);
      try (destruct f2, r2 as [[]|e2]; cbn;
           try (destruct (String.eqb s EmptyString); cbn);
           try (destruct (swallowed_by_close e2); cbn));
      eexists; (split; [rewrite <- ?app_assoc; reflexivity|]); auto.
  - intros -> -> -> ->. ops. cbn.
    eexists; repeat split; cbn; rewrite <- ?app_assoc; reflexivity.
Qed.

Lemma close_in_error_state_skips_result_witness :
  _connection (self after_block_run) = Some 1%nat /\
  _autoResult (self after_block_run) =
    Some {| result_id := 1; result_bookmark := None |} /\
  _state (self after_block_run) = Some "error_state" /\
  exists w',
    close (close_env streaming) after_block_run = (w', Ret tt) /\
    log w' = (log after_block_run ++ [EvSendAll; EvFetchAll])%list /\
    _autoResult (self w') =
      Some {| result_id := 1; result_bookmark := None |} /\
    _connection (self w') = None /\
    released w' = (released after_block_run ++ [1%nat])%list /\
    _bookmarks (self w') = _bookmarks (self after_block_run) /\
    _state (self w') = None.
Proof.
  split; [reflexivity|]. split; [reflexivity|]. split; [reflexivity|].
  apply (proj2 (@close_in_error_state_skips_result (close_env streaming)
                  after_block_run 1%nat
                  {| result_id := 1; result_bookmark := None |}
                  eq_refl eq_refl eq_refl eq_refl)); reflexivity.
Defined.

Lemma bind_returns {A B} (m : M A) (k : A -> M B) w w' b :
  bind m k w = (w', Ret b) ->
  exists a w1, m w = (w1, Ret a) /\ k a w1 = (w', Ret b).
Proof.
  unfold bind. destruct (m w) as [w1 [a|e]]; [eauto|discriminate].
Qed.

Lemma try_finally_returns {A} (body : M A) fin w w' a :
  try_finally body fin w = (w', Ret a) ->
  exists w1, fst (body w) = w1 /\ fin w1 = (w', Ret tt).
Proof.
  unfold try_finally. destruct (body w) as [w1 r]. cbn [fst].
  destruct (fin w1) as [w2 [[]|e]] eqn:Hf; [|discriminate].
  destruct r; [|discriminate]. intros [= <- <-]. eauto.
Qed.

Lemma disconnect_clears w w' :
  _disconnect w = (w', Ret tt) -> _connection (self w') = None.
Proof.
  destruct w as [[cfg [c|] t a b st] l rl]; unfold _disconnect; exec; cbn;
    intros [= <-]; reflexivity.
Qed.

(** What a [close] that returns normally leaves behind. *)
Lemma close_returning env w w' :
  close env w = (w', Ret tt) ->
  _connection (self w') = None /\
  (is_set (_connection (self w)) = true -> _state (self w') = None) /\
  (is_set (_connection (self w)) = false -> w' = w).
Proof.
  unfold close. intros H. apply bind_returns in H.
  destruct H as (c & w1 & [= <- <-] & H).
  destruct (_connection (self w)) as [cx|] eqn:Hc; cbn [is_set when] in H.
  - apply bind_returns in H. destruct H as (ar & w1 & _ & H).
    apply bind_returns in H. destruct H as (u1 & w2 & _ & H).
    apply bind_returns in H. destruct H as (tx & w3 & _ & H).
    apply bind_returns in H. destruct H as (u2 & w4 & _ & H).
    apply bind_returns in H. destruct H as (u3 & w5 & Hf & H).
    apply try_finally_returns in Hf. destruct Hf as (w6 & _ & Hd).
    apply disconnect_clears in Hd. unfold modify in H.
    injection H as <-. cbn. repeat split; auto. discriminate.
  - injection H as <-. repeat split; auto. discriminate.
Qed.

(** X7.  Whatever the session holds and whatever the collaborators do, a
    [close] that returns normally leaves the session without a connection
    (and with the state reset when it held one), and closing the session
    again, with collaborators that may do anything, returns normally,
    makes no call and changes nothing. *)
Theorem close_twice (env env' : CloseEnv) (w w' : World) :
  close env w = (w', Ret tt) ->
  _connection (self w') = None /\
  (is_set (_connection (self w)) = true -> _state (self w') = None) /\
  close env' w' = (w', Ret tt).
Proof.
  intros H. destruct (close_returning _ _ H) as (Hc & Hs & _).
  repeat split; auto. unfold close, bind, get. now rewrite Hc.
Qed.

Lemma close_twice_witness :
  close (close_env streaming) in_transaction =
    (fst (close (close_env streaming) in_transaction), Ret tt) /\
  close refusing_close_env (fst (close (close_env streaming) in_transaction))
    = (fst (close (close_env streaming) in_transaction), Ret tt).
Proof.
  split; [reflexivity|].
  apply (@close_twice (close_env streaming) refusing_close_env
           in_transaction (fst (close (close_env streaming) in_transaction))).
  reflexivity.
Defined.

(** X8.  When [__exit__] returns normally the session holds no connection,
    and its state is reset if it held one on entry; a session that held no
    connection keeps the mark [__exit__] has set, [error_state] when the
    block ended with an exception and [graceful_close_state] otherwise. *)
Theorem exit_releases_and_resets (exception_type : option string)
    (env : CloseEnv) (w w' : World) :
  __exit__ exception_type env w = (w', Ret tt) ->
  _connection (self w') = None /\
  _state (self w') =
    (if is_set (_connection (self w)) then None
     else Some (if is_set exception_type then "error_state"
                else "graceful_close_state")).
Proof.
  unfold __exit__. intros H. apply bind_returns in H.
  destruct H as (u & w1 & Hm & H).
  apply close_returning in H. destruct H as (Hc & Hs & Hn).
  assert (Hw1 : self w1 =
                set_state (Some (if is_set exception_type then "error_state"
                                 else "graceful_close_state")) (self w)).
  { destruct exception_type; cbn in Hm; injection Hm as <-; reflexivity. }
  rewrite Hw1 in Hs, Hn. cbn in Hs, Hn. split; [exact Hc|].
  destruct (is_set (_connection (self w))).
  - now apply Hs.
  - rewrite (Hn eq_refl), Hw1. reflexivity.
Qed.

Lemma exit_releases_and_resets_witness :
  __exit__ (Some "ValueError") (close_env streaming) idle_world =
    (after_failed_block, Ret tt) /\
  _connection (self after_failed_block) = None /\
  _state (self after_failed_block) = Some "error_state".
Proof.
  split; [reflexivity|].
  apply (@exit_releases_and_resets (Some "ValueError") (close_env streaming)
           idle_world after_failed_block).
  reflexivity.
Defined.

(** ** Running queries *)

(** X9.  On a session that holds a connection and has neither a transaction
    nor a result outstanding, [run] of an acceptable query does not go to
    the pool: the only call is [_run], with the bookmarks of the Bookmark
    Store.  [run] raises what [_run] raises and otherwise returns the result
    handle of the session, which is the new result, or nothing when the
    result was completed during [_run]; in that case the connection has been
    released, otherwise it is still held. *)
Theorem run_reuses_the_connection (q : QueryArg) (env : RunEnv) (w : World)
    (c : Connection) :
  query_truth q = true ->
  is_str_or_Query q = true ->
  _connection (self w) = Some c ->
  _transaction (self w) = None ->
  _autoResult (self w) = None ->
  exists w',
    run q env w =
      (w',
       match rc_ret (re_run env) with
       | Raise e => Raise e
       | Ret _ =>
           Ret (if rc_fired (re_run env) then None
                else Some {| result_id := re_new_result env;
                             result_bookmark := rc_bookmark (re_run env) |})
       end) /\
    log w' = (log w ++ [EvResultRun (_bookmarks (self w))])%list /\
    _connection (self w') =
      (if rc_fired (re_run env) then None else Some c) /\
    released w' =
      (released w ++ if rc_fired (re_run env) then [c] else [])%list.
Proof.
  intros Hq Ht.
  destruct w as [[cfg cx tx a bm st] l rl]. cbn. intros -> -> ->.
  destruct env as [de ce nr [rb rf rr]]. unfold run. rewrite Hq, Ht. cbn.
  exec. cbn.
  destruct rf, rb as [s|], rr as [[]|e]; cbn;
    try destruct (String.eqb s EmptyString); cbn;
    eexists; repeat split; cbn; rewrite ?app_nil_r; reflexivity.
Qed.

Lemma run_reuses_the_connection_witness :
  _connection (self connected_world) = Some 3%nat /\
  exists w',
    run (QueryStr "RETURN 1") (run_env 9%nat 1%nat) connected_world =
      (w', Ret (Some {| result_id := 1; result_bookmark := None |})) /\
    log w' = (log connected_world ++ [EvResultRun []])%list /\
    _connection (self w') = Some 3%nat /\
    released w' = (released connected_world ++ [])%list.
Proof.
  split; [reflexivity|].
  apply (@run_reuses_the_connection (QueryStr "RETURN 1")
           (run_env 9%nat 1%nat) connected_world 3%nat); reflexivity.
Defined.

(** X10.  On an idle session without a connection, [run] of an acceptable
    query (a [Query] object is one whatever its text) asks the pool for a
    connection in the default access mode and for the database of the
    configuration.  When the pool raises, [run] raises that error and
    nothing but the log has changed; when the pool hands out a connection,
    [_run] is the second and last call, made with the bookmarks of the
    Bookmark Store, and the session holds the connection and the result
    exactly when the result was not completed during [_run]. *)
Theorem run_acquires_when_no_connection (q : QueryArg) (env : RunEnv)
    (w : World) :
  query_truth q = true ->
  is_str_or_Query q = true ->
  _connection (self w) = None ->
  _transaction (self w) = None ->
  _autoResult (self w) = None ->
  (forall e, ce_acquire (re_connect env) = Raise e ->
     run q env w =
       (fst (emit (EvAcquire (default_access_mode (_config (self w)))
                     (database (_config (self w)))) w), Raise e)) /\
  (forall c, ce_acquire (re_connect env) = Ret c ->
     log (fst (run q env w)) =
       (log w ++
        [EvAcquire (default_access_mode (_config (self w)))
           (database (_config (self w)));
         EvResultRun (_bookmarks (self w))])%list /\
     _connection (self (fst (run q env w))) =
       (if rc_fired (re_run env) then None else Some c) /\
     is_set (_autoResult (self (fst (run q env w)))) =
       negb (rc_fired (re_run env))).
Proof.
  intros Hq Ht.
  destruct w as [[cfg cx tx a bm st] l rl]. cbn. intros -> -> ->.
  destruct env as [de [cs cf acq] nr [rb rf rr]]. cbn.
  split; [intros e ->|intros c ->]; unfold run; rewrite Hq, Ht; cbn;
    unfold _connect; exec; cbn; [reflexivity|].
  destruct rf, rb as [s|], rr as [[]|e]; cbn;
    try destruct (String.eqb s EmptyString); cbn;
    repeat split; cbn; rewrite <- ?app_assoc; reflexivity.
Qed.

Lemma run_acquires_when_no_connection_witness :
  _connection (self idle_world) = None /\
  log (fst (run (QueryObj EmptyString) (run_env 1%nat 1%nat) idle_world)) =
    (log idle_world ++
     [EvAcquire WRITE_ACCESS None; EvResultRun []])%list /\
  _connection
    (self (fst (run (QueryObj EmptyString) (run_env 1%nat 1%nat)
                  idle_world))) = Some 1%nat.
Proof.
  split; [reflexivity|].
  assert (H := proj2
    (@run_acquires_when_no_connection (QueryObj EmptyString)
       (run_env 1%nat 1%nat) idle_world eq_refl eq_refl eq_refl eq_refl
       eq_refl) 1%nat eq_refl).
  split; [exact (proj1 H)|exact (proj1 (proj2 H))].
Defined.

(** X11.  [run] on a session with a result outstanding detaches that result
    first.  When [_detach] completes the result, its bookmark is collected
    and the connection released, so the new query is run on a connection
    acquired afresh and with the bookmark just collected; when [_detach]
    returns with the result incomplete, the query is run on the connection
    already held and the new result takes the place of the old handle. *)
Theorem run_detaches_previous_result (q : QueryArg) (env : RunEnv) (w : World)
    (c c' : Connection) (r : Result) :
  query_truth q = true ->
  is_str_or_Query q = true ->
  _connection (self w) = Some c ->
  _transaction (self w) = None ->
  _autoResult (self w) = Some r ->
  rc_ret (re_detach env) = Ret tt ->
  ce_acquire (re_connect env) = Ret c' ->
  log (fst (run q env w)) =
    (log w ++ EvDetach ::
     (if rc_fired (re_detach env)
      then [EvAcquire (default_access_mode (_config (self w)))
              (database (_config (self w)));
            EvResultRun
              (collected (rc_bookmark (re_detach env))
                 (_bookmarks (self w)))]
      else [EvResultRun (_bookmarks (self w))]))%list /\
  released (fst (run q env w)) =
    (released w ++
     (if rc_fired (re_detach env) then [c] else []) ++
     (if rc_fired (re_run env)
      then [if rc_fired (re_detach env) then c' else c] else []))%list.
Proof.
  intros Hq Ht.
  destruct w as [[cfg cx tx a bm st] l rl]. cbn. intros -> -> ->.
  destruct env as [[db df dr] [cs cf acq] nr [rb rf rr]]. cbn.
  intros -> ->. unfold run, collected. rewrite Hq, Ht. cbn.
  unfold _connect. exec. cbn.
  destruct df, db as [s|]; cbn; try destruct (String.eqb s EmptyString);
    cbn; destruct rf, rb as [s'|]; cbn;
    try destruct (String.eqb s' EmptyString); cbn; destruct rr as [[]|e];
    cbn; rewrite <- ?app_assoc; cbn; rewrite ?app_nil_r; split; reflexivity.
Qed.

Lemma run_detaches_previous_result_witness :
  _connection (self after_first_run) = Some 1%nat /\
  is_set (_autoResult (self after_first_run)) = true /\
  log (fst (run (QueryStr "RETURN 2")
              {| re_detach := completed (Some "bm1");
                 re_connect := acquires 2%nat; re_new_result := 2%nat;
                 re_run := streaming |} after_first_run)) =
    (log after_first_run ++
     [EvDetach; EvAcquire WRITE_ACCESS None; EvResultRun ["bm1"]])%list.
Proof.
  split; [reflexivity|]. split; [reflexivity|].
  exact (proj1
    (@run_detaches_previous_result (QueryStr "RETURN 2")
       {| re_detach := completed (Some "bm1");
          re_connect := acquires 2%nat; re_new_result := 2%nat;
          re_run := streaming |} after_first_run 1%nat 2%nat
       {| result_id := 1; result_bookmark := None |}
       eq_refl eq_refl eq_refl eq_refl eq_refl eq_refl eq_refl)).
Defined.

(** ** Explicit transactions and bookmarks *)



(** X13.  [next_bookmarks] on a session with a transaction handle and no
    result makes no call, returns the Bookmark Store it leaves and keeps the
    connection.  When the transaction object is marked closed, its bookmark
    is collected and the handle dropped, and the connection stays with the
    session; when the transaction is open the session is unchanged. *)
Theorem next_bookmarks_clears_closed_transaction (detach : ResultCall unit)
    (w : World) (t : Transaction) :
  _transaction (self w) = Some t ->
  _autoResult (self w) = None ->
  exists w',
    fst (next_bookmarks detach w) = w' /\
    snd (next_bookmarks detach w) = Ret (_bookmarks (self w')) /\
    log w' = log w /\
    released w' = released w /\
    _connection (self w') = _connection (self w) /\
    (tx_closed t = true ->
       _transaction (self w') = None /\
       _bookmarks (self w') =
         collected (tx_bookmark t) (_bookmarks (self w))) /\
    (tx_closed t = false -> w' = w).
Proof.
  destruct w as [[cfg cx tx a bm st] l rl]. cbn. intros -> ->.
  destruct t as [ti [|] [s|]]; unfold next_bookmarks, collected; exec; cbn;
    try destruct (String.eqb s EmptyString); cbn;
    eexists; (split; [reflexivity|]); repeat split; try reflexivity;
    try discriminate; intros _; repeat split; reflexivity.
Qed.

Lemma next_bookmarks_clears_closed_transaction_witness :
  _transaction (self closed_unnoticed) =
    Some {| tx_id := 1; tx_closed := true; tx_bookmark := Some "bm5" |} /\
  _autoResult (self closed_unnoticed) = None /\
  exists w',
    fst (next_bookmarks streaming closed_unnoticed) = w' /\
    snd (next_bookmarks streaming closed_unnoticed) =
      Ret (_bookmarks (self w')) /\
    log w' = log closed_unnoticed /\
    released w' = released closed_unnoticed /\
    _connection (self w') = _connection (self closed_unnoticed) /\
    (true = true ->
       _transaction (self w') = None /\
       _bookmarks (self w') =
         collected (Some "bm5") (_bookmarks (self closed_unnoticed))) /\
    (true = false -> w' = closed_unnoticed).
Proof.
  split; [reflexivity|]. split; [reflexivity|].
  apply (@next_bookmarks_clears_closed_transaction streaming closed_unnoticed
           {| tx_id := 1; tx_closed := true; tx_bookmark := Some "bm5" |});
    reflexivity.
Defined.

(** X14.  When [_begin] raises without the completion callback having run,
    [begin_transaction] raises that error with the transaction handle
    already set and the connection held: the session is left with a
    transaction that never began, and a second [begin_transaction] raises
    TransactionError. *)
Theorem failed_begin_leaves_transaction (env env' : BeginEnv) (w : World)
    (c : Connection) (e : exn) :
  _connection (self w) = None ->
  _transaction (self w) = None ->
  _autoResult (self w) = None ->
  ce_acquire (oe_connect (be_open env)) = Ret c ->
  tc_ret (oe_begin (be_open env)) = Raise e ->
  tc_fired (oe_begin (be_open env)) = false ->
  exists w',
    begin_transaction env w = (w', Raise e) /\
    is_set (_transaction (self w')) = true /\
    _connection (self w') = Some c /\
    begin_transaction env' w' =
      (w', Raise (TransactionError "Explicit transaction already open")).
Proof.
  destruct w as [[cfg cx tx a bm st] l rl]. cbn. intros -> -> ->.
  destruct env as [de [[cs cf acq] nt [bcl bbm bf br]]]. cbn.
  intros -> -> ->. ops. cbn. rewrite Nat.eqb_refl. cbn.
  eexists; repeat split; reflexivity.
Qed.

Lemma failed_begin_leaves_transaction_witness :
  _connection (self idle_world) = None /\
  tc_ret (oe_begin (be_open refused_begin_env)) =
    Raise (Neo4jError "Neo.ClientError.X" "refused") /\
  exists w',
    begin_transaction refused_begin_env idle_world =
      (w', Raise (Neo4jError "Neo.ClientError.X" "refused")) /\
    is_set (_transaction (self w')) = true /\
    _connection (self w') = Some 1%nat /\
    begin_transaction begin_env w' =
      (w', Raise (TransactionError "Explicit transaction already open")).
Proof.
  split; [reflexivity|]. split; [reflexivity|].
  apply (@failed_begin_leaves_transaction refused_begin_env begin_env
           idle_world 1%nat (Neo4jError "Neo.ClientError.X" "refused"));
    reflexivity.
Defined.

(** ** The connection lease *)

(** X15.  [_connect] on a session that holds a connection (and no result)
    flushes it with [send_all] and [fetch_all], releases it and only then
    goes to the pool, in the access mode given or else the default one.
    When the flush returns, the old connection is handed back whether the
    pool then answers or raises; the session holds the new connection, or
    none when the pool raised. *)
Theorem connect_replaces_held_connection (mode : option AccessMode)
    (db : option string) (env : ConnectEnv) (w : World) (c : Connection) :
  _connection (self w) = Some c ->
  _autoResult (self w) = None ->
  cc_ret (ce_send_all env) = Ret tt ->
  cc_ret (ce_fetch_all env) = Ret tt ->
  exists w',
    _connect mode db env w =
      (w', match ce_acquire env with
           | Ret _ => Ret tt
           | Raise e => Raise e
           end) /\
    _connection (self w') =
      match ce_acquire env with
      | Ret c' => Some c'
      | Raise _ => None
      end /\
    released w' = (released w ++ [c])%list /\
    log w' =
      (log w ++
       [EvSendAll; EvFetchAll;
        EvAcquire
          (match mode with
           | Some m => m
           | None => default_access_mode (_config (self w))
           end) db])%list.
Proof.
  destruct w as [[cfg cx tx a bm st] l rl]. cbn. intros -> ->.
  destruct env as [[f1 r1] [f2 r2] acq]. cbn. intros -> ->.
  unfold _connect. exec. cbn.
  destruct f1, f2, acq as [c'|e], mode; cbn; eexists; repeat split; cbn;
    rewrite <- ?app_assoc; reflexivity.
Qed.

Lemma connect_replaces_held_connection_witness :
  _connection (self connected_world) = Some 3%nat /\
  exists w',
    _connect (Some READ_ACCESS) (Some "movies") (pool_down "no route")
      connected_world = (w', Raise (ServiceUnavailable "no route")) /\
    _connection (self w') = None /\
    released w' = (released connected_world ++ [3%nat])%list /\
    log w' =
      (log connected_world ++
       [EvSendAll; EvFetchAll;
        EvAcquire READ_ACCESS (Some "movies")])%list.
Proof.
  split; [reflexivity|].
  apply (@connect_replaces_held_connection (Some READ_ACCESS)
           (Some "movies") (pool_down "no route") connected_world 3%nat);
    reflexivity.
Defined.



(** X17.  The completion callbacks and [_disconnect] are idempotent: run a
    second time right after the first, each of them changes nothing. *)
Theorem callbacks_are_idempotent (w : World) :
  fst (_result_closed (fst (_result_closed w))) = fst (_result_closed w) /\
  fst (_transaction_closed (fst (_transaction_closed w))) =
    fst (_transaction_closed w) /\
  fst (_disconnect (fst (_disconnect w))) = fst (_disconnect w).
Proof.
  world_cases w; exec; cbn; bookmark_cases; repeat split; reflexivity.
Qed.

(** X18.  Any call on the outstanding result during which its completion
    callback runs finalizes the result: the call has the outcome the result
    object gives it, the bookmark of the result is collected into the
    Bookmark Store, the result handle is dropped and the connection
    released, and the transaction handle is not touched. *)
Theorem result_completion_finalizes {R} (ev : Event) (attr : string)
    (o : ResultCall R) (w : World) (r : Result) :
  _autoResult (self w) = Some r ->
  rc_fired o = true ->
  exists w',
    call_autoResult ev attr o w = (w', rc_ret o) /\
    _autoResult (self w') = None /\
    _connection (self w') = None /\
    _transaction (self w') = _transaction (self w) /\
    released w' =
      (released w ++
       match _connection (self w) with Some c => [c] | None => [] end)%list /\
    _bookmarks (self w') = collected (rc_bookmark o) (_bookmarks (self w)).
Proof.
  destruct w as [[cfg cx tx a bm st] l rl]. cbn. intros ->.
  destruct o as [rb rf rr]. cbn. intros ->. unfold collected. exec. cbn.
  destruct rb as [s|], cx as [c|]; cbn;
    try destruct (String.eqb s EmptyString); cbn;
    eexists; repeat split; cbn; rewrite ?app_nil_r; reflexivity.
Qed.

Lemma result_completion_finalizes_witness :
  is_set (_autoResult (self after_first_run)) = true /\
  exists w',
    call_autoResult EvDetach "_detach" (completed (Some "bm3"))
      after_first_run = (w', Ret tt) /\
    _autoResult (self w') = None /\
    _connection (self w') = None /\
    _transaction (self w') = _transaction (self after_first_run) /\
    released w' = (released after_first_run ++ [1%nat])%list /\
    _bookmarks (self w') =
      collected (Some "bm3") (_bookmarks (self after_first_run)).
Proof.
  split; [reflexivity|].
  apply (@result_completion_finalizes unit EvDetach "_detach"
           (completed (Some "bm3")) after_first_run
           {| result_id := 1; result_bookmark := None |}); reflexivity.
Defined.

(** ** Footprints of the operations *)

Section Adds.
Variable P : Event -> Prop.

Lemma adds_nothing {A} (m : M A) w : log (fst (m w)) = log w -> adds P m w.
Proof. intros H. exists []. rewrite app_nil_r. auto. Qed.

Lemma adds_ret {A} (a : A) w : adds P (ret a) w.
Proof. now apply adds_nothing. Qed.

Lemma adds_raise {A} e w : adds P (@raise A e) w.
Proof. now apply adds_nothing. Qed.

Lemma adds_lift {A} (r : res A) w : adds P (lift r) w.
Proof. now apply adds_nothing. Qed.

Lemma adds_get {A} (f : Session -> A) w : adds P (get f) w.
Proof. now apply adds_nothing. Qed.

Lemma adds_modify f w : adds P (modify f) w.
Proof. now apply adds_nothing. Qed.

Lemma adds_clear_in_use c w : adds P (clear_in_use c) w.
Proof. now apply adds_nothing. Qed.

Lemma adds_emit ev w : P ev -> adds P (emit ev) w.
Proof. intros H. exists [ev]. split; [reflexivity|]. now constructor. Qed.

Lemma adds_bind {A B} (m : M A) (k : A -> M B) w :
  adds P m w -> (forall a w1, adds P (k a) w1) -> adds P (bind m k) w.
Proof.
  intros (l1 & E1 & F1) Hk. unfold adds, bind in *.
  destruct (m w) as [w1 [a|e]]; cbn in *.
  - destruct (Hk a w1) as (l2 & E2 & F2). exists (l1 ++ l2)%list.
    rewrite E2, E1, app_assoc. split; [reflexivity|].
    apply Forall_app; auto.
  - exists l1; auto.
Qed.

(** The continuation may use what [get] has read. *)
Lemma adds_get_bind {A B} (f : Session -> A) (k : A -> M B) w :
  adds P (k (f (self w))) w -> adds P (bind (get f) k) w.
Proof. auto. Qed.

Lemma adds_when b m w : adds P m w -> adds P (when b m) w.
Proof. destruct b; cbn; auto using adds_ret. Qed.

Lemma adds_try_finally {A} (body : M A) fin w :
  adds P body w -> (forall w1, adds P fin w1) ->
  adds P (try_finally body fin) w.
Proof.
  intros (l1 & E1 & F1) Hf. unfold adds, try_finally in *.
  destruct (body w) as [w1 r]; cbn in *.
  destruct (Hf w1) as (l2 & E2 & F2). exists (l1 ++ l2)%list.
  split; [|apply Forall_app; auto].
  rewrite app_assoc, <- E1. unfold adds in E2.
  destruct (fin w1) as [w2 [u|e]]; exact E2.
Qed.

Lemma adds_try_except {A} (body : M A) caught handler w :
  adds P body w -> (forall e w1, adds P (handler e) w1) ->
  adds P (try_except body caught handler) w.
Proof.
  intros (l1 & E1 & F1) Hh. unfold adds, try_except in *.
  destruct (body w) as [w1 [a|e]]; cbn in *; [exists l1; auto|].
  destruct (caught e); [|exists l1; auto].
  destruct (Hh e w1) as (l2 & E2 & F2). exists (l1 ++ l2)%list.
  rewrite E2, E1, app_assoc. split; [reflexivity|]. apply Forall_app; auto.
Qed.

Lemma adds_try_except_else {A B} (body : M A) caught (handler : exn -> M B)
    (orelse : A -> M B) w :
  adds P body w -> (forall e w1, adds P (handler e) w1) ->
  (forall a w1, adds P (orelse a) w1) ->
  adds P (try_except_else body caught handler orelse) w.
Proof.
  intros (l1 & E1 & F1) Hh Ho. unfold adds, try_except_else in *.
  destruct (body w) as [w1 [a|e]]; cbn in *.
  - destruct (Ho a w1) as (l2 & E2 & F2). exists (l1 ++ l2)%list.
    rewrite E2, E1, app_assoc. split; [reflexivity|]. apply Forall_app; auto.
  - destruct (caught e); [|exists l1; auto].
    destruct (Hh e w1) as (l2 & E2 & F2). exists (l1 ++ l2)%list.
    rewrite E2, E1, app_assoc. split; [reflexivity|]. apply Forall_app; auto.
Qed.

Lemma adds_disconnect w : adds P _disconnect w.
Proof.
  unfold _disconnect. apply adds_get_bind.
  destruct (_connection (self w)); [|apply adds_ret].
  apply adds_bind; [apply adds_clear_in_use|intros; apply adds_modify].
Qed.

Lemma adds_collect_bookmark b w : adds P (_collect_bookmark b) w.
Proof.
  unfold _collect_bookmark. destruct b; [|apply adds_ret].
  destruct (truthy _); [apply adds_modify|apply adds_ret].
Qed.

Lemma adds_result_closed w : adds P _result_closed w.
Proof.
  unfold _result_closed. apply adds_get_bind.
  destruct (_autoResult (self w)); [|apply adds_ret].
  apply adds_bind; [apply adds_collect_bookmark|intros].
  apply adds_bind; [apply adds_modify|intros; apply adds_disconnect].
Qed.

Lemma adds_transaction_closed w : adds P _transaction_closed w.
Proof.
  unfold _transaction_closed. apply adds_get_bind.
  destruct (_transaction (self w)); [|apply adds_ret].
  apply adds_bind; [apply adds_collect_bookmark|intros].
  apply adds_bind; [apply adds_modify|intros; apply adds_disconnect].
Qed.

Lemma adds_call_autoResult {R} ev attr (o : ResultCall R) w :
  P ev -> adds P (call_autoResult ev attr o) w.
Proof.
  intros H. unfold call_autoResult. apply adds_get_bind.
  destruct (_autoResult (self w)); [|apply adds_raise].
  apply adds_bind; [now apply adds_emit|intros].
  apply adds_bind; [apply adds_modify|intros].
  apply adds_bind; [apply adds_when, adds_result_closed|intros].
  apply adds_lift.
Qed.

Lemma adds_call_connection ev attr o w :
  P ev -> adds P (call_connection ev attr o) w.
Proof.
  intros H. unfold call_connection. apply adds_get_bind.
  destruct (_connection (self w)); [|apply adds_raise].
  apply adds_bind; [now apply adds_emit|intros].
  apply adds_bind; [apply adds_when, adds_result_closed|intros].
  apply adds_lift.
Qed.

Lemma adds_call_tx {R} tx ev attr (o : TxCall R) w :
  P ev -> adds P (call_tx tx ev attr o) w.
Proof.
  intros H. unfold call_tx. destruct tx; [|apply adds_raise].
  apply adds_bind; [now apply adds_emit|intros].
  apply adds_bind; [apply adds_modify|intros].
  apply adds_bind; [apply adds_when, adds_transaction_closed|intros].
  apply adds_lift.
Qed.

Lemma adds_connect mode db env w :
  P EvSendAll -> P EvFetchAll ->
  P (EvAcquire
       match mode with
       | Some m => m
       | None => default_access_mode (_config (self w))
       end db) ->
  adds P (_connect mode db env) w.
Proof.
  intros H1 H2 H3. unfold _connect. apply adds_get_bind. cbv zeta.
  apply adds_get_bind. apply adds_bind.
  - apply adds_when. apply adds_bind; [now apply adds_call_connection|intros].
    apply adds_bind; [now apply adds_call_connection|intros].
    apply adds_disconnect.
  - intros. apply adds_bind; [apply adds_emit, H3|intros].
    apply adds_bind; [apply adds_lift|intros; apply adds_modify].
Qed.

(** Without a connection [_connect] goes straight to the pool. *)
Lemma adds_connect_without_connection mode db env w :
  _connection (self w) = None ->
  P (EvAcquire
       match mode with
       | Some m => m
       | None => default_access_mode (_config (self w))
       end db) ->
  adds P (_connect mode db env) w.
Proof.
  intros Hc H3. unfold _connect. apply adds_get_bind. cbv zeta.
  apply adds_get_bind. rewrite Hc. cbn [is_set when]. apply adds_bind.
  - apply adds_ret.
  - intros. apply adds_bind; [apply adds_emit, H3|intros].
    apply adds_bind; [apply adds_lift|intros; apply adds_modify].
Qed.

Lemma adds_open_transaction mode db env w :
  P EvSendAll -> P EvFetchAll -> P (EvAcquire mode db) ->
  (forall bms, P (EvBegin bms mode)) ->
  adds P (_open_transaction mode db env) w.
Proof.
  intros H1 H2 H3 H4. unfold _open_transaction.
  apply adds_bind; [now apply adds_connect|intros].
  apply adds_bind; [apply adds_modify|intros].
  apply adds_get_bind, adds_get_bind. apply adds_call_tx, H4.
Qed.

End Adds.

Ltac allowed_now := unfold allowed; cbn; tauto.

(** X19.  Each public operation calls its collaborators only as listed in
    [footprint], whatever the session holds and whatever the collaborators
    do: [run] never flushes a connection ([send_all], [fetch_all]), since it
    goes to the pool only when it holds none; [commit_transaction] and
    [rollback_transaction] make no call but the commit or the rollback;
    [next_bookmarks] at most detaches the result; and [close] never goes to
    the pool. *)
Theorem operation_footprint (op : Operation) (w : World) :
  exists l,
    log (perform op w) = (log w ++ l)%list /\
    Forall (allowed (footprint op)) l.
Proof.
  destruct op; cbn [perform footprint].
  - change (adds (allowed ["_detach"; "acquire"; "_run"]) (run query env) w).
    unfold run.
    destruct (negb (query_truth query)); [apply adds_raise|].
    destruct (negb (is_str_or_Query query)); [apply adds_raise|].
    apply adds_get_bind.
    destruct (is_set (_transaction (self w))); [apply adds_raise|].
    apply adds_get_bind. apply adds_bind.
    { apply adds_when, adds_call_autoResult. allowed_now. }
    intros _ w1. apply adds_get_bind, adds_get_bind. apply adds_bind.
    { destruct (_connection (self w1)) eqn:Hc; cbn [is_set negb when].
      - apply adds_ret.
      - apply adds_connect_without_connection; [exact Hc|].
        allowed_now. }
    intros _ w2. apply adds_get_bind.
    destruct (_connection (self w2)); [|apply adds_raise].
    apply adds_bind; [apply adds_modify|intros].
    apply adds_get_bind.
    apply adds_bind; [apply adds_call_autoResult; allowed_now|intros].
    apply adds_get.
  - change (adds (allowed ["_detach"; "send_all"; "fetch_all"; "acquire";
                           "_begin"]) (begin_transaction env) w).
    unfold begin_transaction. apply adds_get_bind. apply adds_bind.
    { apply adds_when, adds_call_autoResult. allowed_now. }
    intros _ w1. apply adds_get_bind.
    destruct (is_set (_transaction (self w1))); [apply adds_raise|].
    apply adds_get_bind. apply adds_bind; [|intros; apply adds_get].
    apply adds_open_transaction; intros; allowed_now.
  - change (adds (allowed ["commit"]) (commit_transaction commit) w).
    unfold commit_transaction. apply adds_get_bind.
    destruct (negb _); [apply adds_raise|].
    apply adds_try_finally; [apply adds_call_tx; allowed_now|].
    intros; apply adds_transaction_closed.
  - change (adds (allowed ["rollback"]) (rollback_transaction rollback) w).
    unfold rollback_transaction. apply adds_get_bind.
    destruct (negb _); [apply adds_raise|].
    apply adds_try_finally; [apply adds_call_tx; allowed_now|].
    intros; apply adds_transaction_closed.
  - change (adds (allowed ["_detach"]) (next_bookmarks detach) w).
    unfold next_bookmarks. apply adds_get_bind. apply adds_bind.
    { apply adds_when, adds_call_autoResult. allowed_now. }
    intros _ w1. apply adds_get_bind.
    apply adds_bind; [|intros; apply adds_get].
    destruct (_transaction (self w1)); [|apply adds_ret].
    apply adds_when. apply adds_bind; [apply adds_collect_bookmark|].
    intros; apply adds_modify.
  - change (adds (allowed ["consume"; "closed"; "connection.rollback";
                           "send_all"; "fetch_all"]) (close env) w).
    unfold close. apply adds_get_bind. apply adds_when.
    apply adds_get_bind. apply adds_bind.
    { apply adds_when. apply adds_get_bind. apply adds_when.
      apply adds_try_except.
      - apply adds_bind; [apply adds_call_autoResult; allowed_now|].
        intros _ w1. apply adds_get_bind.
        destruct (_autoResult (self w1)); [apply adds_collect_bookmark|].
        apply adds_raise.
      - intros.
        apply adds_bind; [apply adds_modify|intros; apply adds_modify]. }
    intros _ w1. apply adds_get_bind. apply adds_bind.
    { apply adds_when. apply adds_bind; [apply adds_call_tx; allowed_now|].
      intros closed w2. apply adds_bind; [|intros; apply adds_modify].
      apply adds_when, adds_call_connection. allowed_now. }
    intros _ w2. apply adds_bind; [|intros; apply adds_modify].
    apply adds_try_finally; [|intros; apply adds_disconnect].
    apply adds_try_except; [|intros; apply adds_ret].
    apply adds_bind; [apply adds_call_connection; allowed_now|].
    intros; apply adds_call_connection; allowed_now.
Qed.


(** ** Managed transactions *)

Section EngineProperties.

Variable V : Type.

Lemma adds_work P tx (a : Attempt V) w :
  P EvUnitOfWork -> P EvRollback -> P EvCommit -> P EvTxClose ->
  adds P (work tx a) w.
Proof.
  intros H1 H2 H3 H4. unfold work.
  apply adds_try_finally; [|intros; now apply adds_call_tx].
  apply adds_try_except_else.
  - unfold call_unit_of_work.
    apply adds_bind; [now apply adds_emit|intros].
    apply adds_bind; [|intros; apply adds_lift].
    destruct tx; [|apply adds_ret].
    apply adds_bind; [apply adds_modify|intros].
    apply adds_when, adds_transaction_closed.
  - intros. apply adds_bind; [now apply adds_call_tx|intros; apply adds_raise].
  - intros. apply adds_bind; [now apply adds_call_tx|intros; apply adds_ret].
Qed.

Lemma adds_attempt P mode (a : Attempt V) w :
  P EvSendAll -> P EvFetchAll -> (forall db, P (EvAcquire mode db)) ->
  (forall bms, P (EvBegin bms mode)) ->
  P EvUnitOfWork -> P EvRollback -> P EvCommit -> P EvTxClose ->
  adds P (attempt mode a) w.
Proof.
  intros. unfold attempt, open_attempt.
  apply adds_bind.
  - apply adds_get_bind. now apply adds_open_transaction.
  - intros. apply adds_get_bind. now apply adds_work.
Qed.

Lemma adds_warn_and_sleep P d errors warning slept w :
  (forall d s, P (EvWarning d s)) -> (forall d, P (EvSleep d)) ->
  adds P (warn_and_sleep d errors warning slept) w.
Proof.
  intros H1 H2. unfold warn_and_sleep.
  apply adds_bind; [apply adds_emit, H1|intros].
  apply adds_bind; [apply adds_lift|intros].
  apply adds_bind; [apply adds_emit, H2|intros].
  destruct (sleep_rejects d); [apply adds_raise|apply adds_lift].
Qed.

Lemma retry_loop_adds P mode t0 (script : list (Attempt V)) :
  P EvSendAll -> P EvFetchAll -> (forall db, P (EvAcquire mode db)) ->
  (forall bms, P (EvBegin bms mode)) ->
  P EvUnitOfWork -> P EvRollback -> P EvCommit -> P EvTxClose ->
  (forall d s, P (EvWarning d s)) -> (forall d, P (EvSleep d)) ->
  forall errors g w out,
    retry_loop mode t0 script errors g w = Some out ->
    exists l, log (fst out) = (log w ++ l)%list /\ Forall P l.
Proof.
  intros H1 H2 H3 H4 H5 H6 H7 H8 H9 H10.
  induction script as [|a script IH]; intros errors g w out;
    cbn [retry_loop]; [discriminate|].
  destruct (@adds_attempt P mode a w H1 H2 H3 H4 H5 H6 H7 H8)
    as (l1 & E1 & F1).
  destruct (attempt mode a w) as [w1 [v|e]]; cbn [fst] in E1.
  - intros [= <-]. eauto.
  - destruct (record_error errors e) as [errors'|].
    + destruct (budget_exceeded _ _ _).
      * intros [= <-]. eauto.
      * cbv zeta.
        destruct (@adds_warn_and_sleep P (fst (next g (at_random a)))
                    errors' (at_warning a) (at_sleep a) w1 H9 H10)
          as (lp & Ep & Fp).
        destruct (warn_and_sleep _ _ _ _ w1) as [w2 [u|e']];
          cbn [fst] in Ep.
        -- intros H. apply IH in H. destruct H as (l2 & E2 & F2).
           rewrite E2, Ep, E1. eexists. rewrite <- !app_assoc.
           split; [reflexivity|]. repeat (apply Forall_app; split); auto.
        -- intros [= <-]. cbn [fst]. rewrite Ep, E1. eexists.
           rewrite <- app_assoc. split; [reflexivity|].
           apply Forall_app; auto.
    + intros [= <-]. eauto.
Qed.

(** X20.  Whatever the script of collaborators and however many turns the
    loop takes, a managed transaction makes only the calls listed in
    [engine_footprint]: it never detaches or consumes a result, never runs
    an auto-commit query and never sends a rollback on the connection
    itself. *)
Theorem engine_footprint_only (mode : AccessMode) (callable : bool) (t0 : Q)
    (script : list (Attempt V)) (w : World) (out : World * res V) :
  _run_transaction mode callable t0 script w = Some out ->
  exists l,
    log (fst out) = (log w ++ l)%list /\
    Forall (allowed engine_footprint) l.
Proof.
  unfold _run_transaction. destruct callable; cbn [negb].
  - apply retry_loop_adds; intros; unfold allowed, engine_footprint; cbn;
      tauto.
  - intros [= <-]. exists []. rewrite app_nil_r. auto.
Qed.

Lemma run_transaction_in_mode mode callable t0 (script : list (Attempt V))
    w out :
  _run_transaction mode callable t0 script w = Some out ->
  exists l,
    log (fst out) = (log w ++ l)%list /\ Forall (in_mode mode) l.
Proof.
  unfold _run_transaction. destruct callable; cbn [negb].
  - apply retry_loop_adds; intros; cbn; auto.
  - intros [= <-]. exists []. rewrite app_nil_r. auto.
Qed.

(** X21.  In every turn of [read_transaction] the connection is acquired
    and the transaction begun in read mode, and in every turn of
    [write_transaction] in write mode, whatever the default access mode of
    the session configuration. *)
Theorem managed_transactions_use_their_access_mode (callable : bool)
    (t0 : Q) (script : list (Attempt V)) (w : World) (out : World * res V) :
  (read_transaction callable t0 script w = Some out ->
   exists l,
     log (fst out) = (log w ++ l)%list /\
     Forall (in_mode READ_ACCESS) l) /\
  (write_transaction callable t0 script w = Some out ->
   exists l,
     log (fst out) = (log w ++ l)%list /\
     Forall (in_mode WRITE_ACCESS) l).
Proof. split; apply run_transaction_in_mode. Qed.

Lemma slept_app l1 l2 : slept (l1 ++ l2) = (slept l1 ++ slept l2)%list.
Proof. unfold slept. apply flat_map_app. Qed.

Lemma slept_none l :
  Forall (fun ev => forall d, ev <> EvSleep d) l -> slept l = [].
Proof.
  induction 1 as [|ev l H _ IH]; [reflexivity|].
  unfold slept in *. cbn [flat_map]. rewrite IH.
  destruct ev; try reflexivity. exfalso. eapply H. reflexivity.
Qed.

(** A turn of the loop never sleeps. *)
Lemma attempt_never_sleeps mode (a : Attempt V) w :
  slept (log (fst (attempt mode a w))) = slept (log w).
Proof.
  destruct (@adds_attempt (fun ev => forall d, ev <> EvSleep d) mode a w)
    as (l & E & F); try (intros; discriminate).
  rewrite E, slept_app, (slept_none F). apply app_nil_r.
Qed.

Lemma slept_pause l d text :
  slept (l ++ [EvWarning d text; EvSleep d]) = (slept l ++ [d])%list.
Proof. rewrite slept_app. reflexivity. Qed.

Lemma slept_warning l d text :
  slept (l ++ [EvWarning d text]) = slept l.
Proof. rewrite slept_app. cbn. apply app_nil_r. Qed.

(** The loop goes on with the rest of the script exactly when a turn
    failed with a recorded error, the budget lasts and the pause returns. *)
Lemma retry_loop_goes_on mode t0 (a : Attempt V) script errors g w w1 e
    errors' w2 u :
  attempt mode a w = (w1, Raise e) ->
  record_error errors e = Some errors' ->
  budget_exceeded (_config (self w1)) t0 (at_clock a) = false ->
  warn_and_sleep (fst (next g (at_random a))) errors' (at_warning a)
    (at_sleep a) w1 = (w2, Ret u) ->
  retry_loop mode t0 (a :: script) errors g w =
    retry_loop mode t0 script errors' (snd (next g (at_random a))) w2.
Proof.
  intros Ha Hr Hb Hw. cbn [retry_loop]. rewrite Ha, Hr, Hb. cbv zeta.
  now rewrite Hw.
Qed.

(** The loop turn by turn: an outcome comes with turn [n + 1], after [n]
    turns that were retried, and the sleeps are the generator's values. *)
Lemma retry_loop_sleeps mode t0 (script : list (Attempt V)) :
  forall errors g w out,
    retry_loop mode t0 script errors g w = Some out ->
    exists n,
      (n < length script)%nat /\
      retry_loop mode t0 (firstn n script) errors g w = None /\
      retry_loop mode t0 (firstn (S n) script) errors g w = Some out /\
      (forall v, snd out = Ret v ->
         slept (log (fst out)) =
           (slept (log w) ++
            firstn n (delays g (map (@at_random V) script)))%list) /\
      (slept (log (fst out)) =
         (slept (log w) ++
          firstn n (delays g (map (@at_random V) script)))%list \/
       slept (log (fst out)) =
         (slept (log w) ++
          firstn (S n) (delays g (map (@at_random V) script)))%list).
Proof.
  induction script as [|a script IH]; intros errors g w out Hout;
    [discriminate|].
  assert (Hnow : retry_loop mode t0 [a] errors g w = Some out ->
                 slept (log (fst out)) = slept (log w) ->
                 exists n,
                   (n < length (a :: script))%nat /\
                   retry_loop mode t0 (firstn n (a :: script)) errors g w =
                     None /\
                   retry_loop mode t0 (firstn (S n) (a :: script)) errors g
                     w = Some out /\
                   (forall v, snd out = Ret v ->
                      slept (log (fst out)) =
                        (slept (log w) ++
                         firstn n
                           (delays g
                              (map (@at_random V) (a :: script))))%list) /\
                   (slept (log (fst out)) =
                      (slept (log w) ++
                       firstn n
                         (delays g
                            (map (@at_random V) (a :: script))))%list \/
                    slept (log (fst out)) =
                      (slept (log w) ++
                       firstn (S n)
                         (delays g
                            (map (@at_random V) (a :: script))))%list)).
  { intros H1 Hs. exists 0%nat. cbn [firstn length].
    rewrite app_nil_r. repeat split; auto. lia. }
  pose proof (attempt_never_sleeps mode a w) as Hs.
  cbn [retry_loop] in Hout, Hnow.
  destruct (attempt mode a w) as [w1 [v|e]] eqn:Ha; cbn [fst] in Hs.
  - injection Hout as <-. now apply Hnow.
  - destruct (record_error errors e) as [errors'|] eqn:Hr.
    + destruct (budget_exceeded _ _ _) eqn:Hb.
      * injection Hout as <-. now apply Hnow.
      * cbv zeta in Hout, Hnow.
        destruct (pause_log (fst (next g (at_random a))) errors'
                    (at_warning a) (at_sleep a) w1) as [Hl Hp].
        destruct (warn_and_sleep _ _ _ _ w1) as [w2 [u|e']] eqn:Hw;
          cbn [fst snd] in Hl, Hp.
        -- clear Hnow. apply IH in Hout.
           destruct Hout as (n & Hn & Hnone & Hsome & Hret & Hany).
           assert (Hs2 : slept (log w2) =
                         (slept (log w) ++ [fst (next g (at_random a))])%list).
           { rewrite (Hp u eq_refl). unfold paused. cbn [log].
             now rewrite slept_pause, Hs. }
           rewrite Hs2, <- !app_assoc in Hret, Hany.
           assert (Hany' :
                     slept (log (fst out)) =
                       (slept (log w) ++ [fst (next g (at_random a))] ++
                        firstn n
                          (delays (snd (next g (at_random a)))
                             (map (@at_random V) script)))%list \/
                     slept (log (fst out)) =
                       (slept (log w) ++ [fst (next g (at_random a))] ++
                        firstn (S n)
                          (delays (snd (next g (at_random a)))
                             (map (@at_random V) script)))%list).
           { destruct Hany as [H|H]; [left|right]; rewrite H;
               rewrite <- ?app_assoc; reflexivity. }
           exists (S n).
           change (firstn (S n) (a :: script)) with (a :: firstn n script).
           change (firstn (S (S n)) (a :: script))
             with (a :: firstn (S n) script).
           rewrite !(@retry_loop_goes_on mode t0 a _ errors g w w1 e errors'
                       w2 u Ha Hr Hb Hw).
           cbn [length map delays].
           change (firstn (S n) (?x :: ?l)) with (x :: firstn n l).
           split; [lia|]. split; [exact Hnone|]. split; [exact Hsome|].
           split; [exact Hret|exact Hany'].
        -- injection Hout as <-. exists 0%nat.
           cbn [firstn length map delays fst retry_loop].
           rewrite Ha, Hr, Hb. cbv zeta. rewrite Hw.
           rewrite app_nil_r. split; [lia|]. split; [reflexivity|].
           split; [reflexivity|]. split; [discriminate|].
           destruct Hl as [Hl|Hl]; rewrite Hl.
           ++ left. now rewrite slept_warning.
           ++ right. now rewrite slept_pause, Hs.
    + injection Hout as <-. now apply Hnow.
Qed.

Lemma firstn_delays g (rs : list float) :
  forall n, (n <= length rs)%nat ->
    firstn n (delays g rs) =
      map (emitted g (fun i => nth i rs 0%float)) (seq 0 n).
Proof.
  revert g. induction rs as [|r rs IH]; intros g n Hn.
  - destruct n; [reflexivity|cbn in Hn; lia].
  - destruct n as [|n]; [reflexivity|].
    cbn [delays firstn seq map emitted nth]. f_equal.
    rewrite <- seq_shift, map_map. cbn in Hn.
    rewrite IH by lia. reflexivity.
Qed.

(** X22.  One sleep after each retried turn, with the delays of the
    generator.  Every outcome of a managed transaction comes with some turn
    [n + 1] of the script: after the first [n] turns the loop is still
    running, and the first [n + 1] turns alone give the outcome.  When the
    outcome is a value returned, the engine has slept exactly [n] times,
    and the delays are, in order, the first [n] values of the delay
    generator built from the retry settings of the session configuration,
    fed with the [random()] draws of the retried turns.  When the outcome is
    an exception the same holds, except that there is one more sleep, with
    the next value of the generator, if the exception was raised from the
    pause after the sleep was called. *)
Theorem sleeps_follow_the_generator (mode : AccessMode) (t0 : Q)
    (script : list (Attempt V)) (w : World) (out : World * res V) :
  _run_transaction mode true t0 script w = Some out ->
  exists n,
    (n < length script)%nat /\
    _run_transaction mode true t0 (firstn n script) w = None /\
    _run_transaction mode true t0 (firstn (S n) script) w = Some out /\
    (forall v, snd out = Ret v ->
       slept (log (fst out)) =
         (slept (log w) ++
          map (emitted
                 (retry_delay_generator
                    (initial_retry_delay (_config (self w)))
                    (retry_delay_multiplier (_config (self w)))
                    (retry_delay_jitter_factor (_config (self w))))
                 (draws script))
            (seq 0 n))%list) /\
    (slept (log (fst out)) =
       (slept (log w) ++
        map (emitted
               (retry_delay_generator
                  (initial_retry_delay (_config (self w)))
                  (retry_delay_multiplier (_config (self w)))
                  (retry_delay_jitter_factor (_config (self w))))
               (draws script))
          (seq 0 n))%list \/
     slept (log (fst out)) =
       (slept (log w) ++
        map (emitted
               (retry_delay_generator
                  (initial_retry_delay (_config (self w)))
                  (retry_delay_multiplier (_config (self w)))
                  (retry_delay_jitter_factor (_config (self w))))
               (draws script))
          (seq 0 (S n)))%list).
Proof.
  unfold _run_transaction. cbn [negb]. cbv zeta. intros H.
  apply retry_loop_sleeps in H.
  destruct H as (n & Hn & Hnone & Hsome & Hret & Hany).
  exists n. split; [exact Hn|]. split; [exact Hnone|].
  split; [exact Hsome|].
  assert (Hlen : length (map (@at_random V) script) = length script)
    by apply length_map.
  unfold draws. rewrite <- !firstn_delays by lia.
  split; [exact Hret|exact Hany].
Qed.

(** What [work] does when the unit of work returns. *)
Lemma work_when_unit_of_work_returns t (a : Attempt V) w v :
  _transaction (self w) = Some t ->
  tc_ret (at_unit_of_work a) = Ret v ->
  tc_fired (at_unit_of_work a) = false ->
  tc_ret (at_close a) = Ret tt ->
  exists w',
    work (Some t) a w =
      (w', match tc_ret (at_commit a) with
           | Ret _ => Ret v
           | Raise e => Raise e
           end) /\
    log w' = (log w ++ [EvUnitOfWork; EvCommit; EvTxClose])%list /\
    (tc_fired (at_commit a) = true ->
     _transaction (self w') = None /\
     _connection (self w') = None /\
     _bookmarks (self w') =
       collected (tc_bookmark (at_commit a)) (_bookmarks (self w))).
Proof.
  destruct w as [[cfg cx tx ar bm st] l rl]. cbn. intros ->.
  destruct a as [ao [ucl ubm uf ur] ar' [ccl cbm cf cr] [xcl xbm xf xr] ck rd].
  cbn. intros -> -> ->. unfold work, call_unit_of_work, collected. exec. cbn.
  rewrite Nat.eqb_refl. cbn. rewrite !Nat.eqb_refl. cbn.
  destruct cf; cbn.
  - destruct cbm as [s|], cx as [c|]; cbn;
      try destruct (String.eqb s EmptyString); cbn;
      destruct cr; cbn; destruct xf; cbn;
      eexists; (split; [reflexivity|]); cbn; rewrite <- ?app_assoc;
      (split; [reflexivity|]); intros _; repeat split; reflexivity.
  - destruct cr; cbn; rewrite ?Nat.eqb_refl; cbn;
      destruct xf, xbm as [s|], cx as [c|]; cbn;
      try destruct (String.eqb s EmptyString); cbn;
      eexists; (split; [reflexivity|]); cbn; rewrite <- ?app_assoc;
      (split; [reflexivity|]); discriminate.
Qed.

(** X23.  A turn in which the transaction is opened, the unit of work
    returns [v] and [commit] and [_close] return ends the managed
    transaction with [v], whatever the recorded errors, the clock and the
    rest of the script: after opening, the calls are the unit of work, the
    commit and the close, in that order and with no rollback, and when the
    commit completes the transaction its bookmark is in the Bookmark Store
    and the connection is released. *)
Theorem managed_success_commits_and_returns mode t0 (a : Attempt V) script
    errors g w w0 t v b :
  open_attempt mode a w = (w0, Ret tt) ->
  _transaction (self w0) = Some t ->
  tc_ret (at_unit_of_work a) = Ret v ->
  tc_fired (at_unit_of_work a) = false ->
  tc_ret (at_commit a) = Ret b ->
  tc_ret (at_close a) = Ret tt ->
  exists w',
    retry_loop mode t0 (a :: script) errors g w = Some (w', Ret v) /\
    log w' = (log w0 ++ [EvUnitOfWork; EvCommit; EvTxClose])%list /\
    (tc_fired (at_commit a) = true ->
     _transaction (self w') = None /\
     _connection (self w') = None /\
     _bookmarks (self w') =
       collected (tc_bookmark (at_commit a)) (_bookmarks (self w0))).
Proof.
  intros Ho Ht Hu Hf Hc Hx. cbn [retry_loop].
  rewrite (attempt_after_open _ _ _ Ho), Ht.
  destruct (@work_when_unit_of_work_returns t a w0 v Ht Hu Hf Hx)
    as (w' & E & L & F).
  rewrite E, Hc. eauto.
Qed.

(** X24.  When the unit of work returns and [commit] raises [e], the turn
    ends with [e] and no rollback is attempted: the calls after opening are
    the unit of work, the commit and the close.  The error is then treated
    like any error of the turn: it ends the managed transaction when it is
    not retriable; and when it is a connectivity error, the budget is not
    spent and the pause (warning and sleep) returns, the loop goes on with
    the rest of the script, so that the unit of work is run again although
    it had returned. *)
Theorem commit_error_skips_rollback mode (a : Attempt V) w w0 t v e :
  open_attempt mode a w = (w0, Ret tt) ->
  _transaction (self w0) = Some t ->
  tc_ret (at_unit_of_work a) = Ret v ->
  tc_fired (at_unit_of_work a) = false ->
  tc_ret (at_commit a) = Raise e ->
  tc_ret (at_close a) = Ret tt ->
  exists w',
    attempt mode a w = (w', Raise e) /\
    log w' = (log w0 ++ [EvUnitOfWork; EvCommit; EvTxClose])%list /\
    (forall t0 script errors g,
       record_error errors e = None ->
       retry_loop mode t0 (a :: script) errors g w = Some (w', Raise e)) /\
    (forall t0 script errors g,
       is_connectivity_error e = true ->
       (at_clock a - t0 <= max_transaction_retry_time (_config (self w')))%Q
       ->
       at_warning a = Ret tt ->
       sleep_rejects (fst (next g (at_random a))) = None ->
       at_sleep a = Ret tt ->
       retry_loop mode t0 (a :: script) errors g w =
         retry_loop mode t0 script (errors ++ [e])%list
           (snd (next g (at_random a)))
           (paused (fst (next g (at_random a)))
              (warning_text (errors ++ [e])%list) w')).
Proof.
  intros Ho Ht Hu Hf Hc Hx.
  destruct (@work_when_unit_of_work_returns t a w0 v Ht Hu Hf Hx)
    as (w' & E & L & _).
  rewrite Hc in E. exists w'.
  assert (Ha : attempt mode a w = (w', Raise e))
    by (rewrite (attempt_after_open _ _ _ Ho), Ht; exact E).
  split; [exact Ha|]. split; [exact L|]. split.
  - intros t0 script errors g Hr. cbn [retry_loop]. now rewrite Ha, Hr.
  - intros t0 script errors g Hr Hb Hw Hd Hs.
    apply (@retry_step V mode t0 a script errors g w w' e); auto.
    unfold record_error. now rewrite Hr.
Qed.

(** X25.  Errors of the clean-up take the place of the outcome of the turn:
    when [_close] raises, the turn ends with that error whatever the unit of
    work, the commit or the rollback did; and when the unit of work raises a
    subclass of Exception and [rollback] raises, the turn ends with the
    error of the rollback, not with the error of the unit of work. *)
Theorem cleanup_errors_replace_the_outcome t (a : Attempt V) w :
  (forall e2, tc_ret (at_close a) = Raise e2 ->
     snd (work (Some t) a w) = Raise e2) /\
  (forall e e1,
     tc_ret (at_unit_of_work a) = Raise e ->
     isinstance_Exception e = true ->
     tc_ret (at_rollback a) = Raise e1 ->
     tc_ret (at_close a) = Ret tt ->
     snd (work (Some t) a w) = Raise e1).
Proof.
  split.
  - intros e2 Hx. unfold work, try_finally.
    destruct (try_except_else _ _ _ _ w) as [w1 r].
    destruct (call_tx_logged t EvTxClose "_close" (at_close a) w1)
      as (w2 & E & _).
    now rewrite E, Hx.
  - intros e e1 Hu He Hr Hx. unfold work, try_finally, try_except_else.
    destruct (call_unit_of_work_logged (Some t) (at_unit_of_work a) w)
      as (w1 & E1 & _).
    rewrite E1, Hu, He. unfold bind.
    destruct (call_tx_logged t EvRollback "rollback" (at_rollback a) w1)
      as (w2 & E2 & _).
    rewrite E2, Hr.
    destruct (call_tx_logged t EvTxClose "_close" (at_close a) w2)
      as (w3 & E3 & _).
    now rewrite E3, Hx.
Qed.

(** X26.  Which errors of a turn are retried: an error is recorded, at the
    end of the list of recorded errors, exactly when it is a
    ServiceUnavailable, a SessionExpired, or a TransientError whose code is
    neither Neo.TransientError.Transaction.Terminated nor
    Neo.TransientError.Transaction.LockClientStopped; every other error
    leaves the loop at once. *)
Theorem recorded_iff_retriable (errors : list exn) (e : exn) :
  (record_error errors e = Some (errors ++ [e])%list \/
   record_error errors e = None) /\
  (record_error errors e = Some (errors ++ [e])%list <->
   (exists m, e = ServiceUnavailable m) \/
   (exists m, e = SessionExpired m) \/
   (exists c m, e = TransientError c m /\
      c <> "Neo.TransientError.Transaction.Terminated" /\
      c <> "Neo.TransientError.Transaction.LockClientStopped")).
Proof.
  assert (Hn : forall l : list exn, Some (l ++ [e])%list <> None)
    by discriminate.
  destruct e; unfold record_error; cbn [is_connectivity_error
    isinstance_TransientError];
    try (split; [now right|]; split; [discriminate|];
         intros [[m H]|[[m H]|(c & m & H & _)]]; discriminate).
  - split; [now left|]. split; eauto.
  - split; [now left|]. split; eauto.
  - match goal with
    | |- context [TransientError ?c ?m] =>
        pose proof (not_retriable_iff c m) as Hi;
        destruct (is_retriable_transient_error (TransientError c m))
    end.
    + split; [now left|]. split; [intros _|auto].
      right. right. eexists _, _. split; [reflexivity|].
      split; intros Hc; destruct Hi as [_ Hi]; discriminate Hi; auto.
    + split; [now right|]. split; [discriminate|].
      intros [[m' H]|[[m' H]|(c' & m' & H & H1 & H2)]]; try discriminate.
      injection H as <- <-. destruct Hi as [Hi _].
      destruct (Hi eq_refl); contradiction.
Qed.

End EngineProperties.

Lemma engine_footprint_only_witness :
  _run_transaction WRITE_ACCESS true 0 [lost_turn; commit_turn] idle_world =
    Some retried_outcome /\
  exists l,
    log (fst retried_outcome) = (log idle_world ++ l)%list /\
    Forall (allowed engine_footprint) l.
Proof.
  split; [vm_compute; reflexivity|].
  apply (@engine_footprint_only nat WRITE_ACCESS true 0
           [lost_turn; commit_turn] idle_world retried_outcome).
  vm_compute; reflexivity.
Defined.

Lemma managed_transactions_use_their_access_mode_witness :
  default_access_mode (_config (self idle_world)) = WRITE_ACCESS /\
  read_transaction true 0 [commit_turn] idle_world = Some read_outcome /\
  exists l,
    log (fst read_outcome) = (log idle_world ++ l)%list /\
    Forall (in_mode READ_ACCESS) l.
Proof.
  split; [vm_compute; reflexivity|]. split; [vm_compute; reflexivity|].
  apply (proj1 (@managed_transactions_use_their_access_mode nat true 0
                  [commit_turn] idle_world read_outcome)).
  vm_compute; reflexivity.
Defined.

Lemma sleeps_follow_the_generator_witness :
  _run_transaction WRITE_ACCESS true 0 [lost_turn; commit_turn] idle_world =
    Some retried_outcome /\
  snd retried_outcome = Ret 7%nat /\
  _run_transaction WRITE_ACCESS true 0 [lost_turn] idle_world = None /\
  slept (log (fst retried_outcome)) =
    [emitted (retry_delay_generator 1 2 0.2)
       (draws [lost_turn; commit_turn]) 0].
Proof.
  assert (H : _run_transaction WRITE_ACCESS true 0 [lost_turn; commit_turn]
                idle_world = Some retried_outcome)
    by (vm_compute; reflexivity).
  split; [exact H|]. split; [vm_compute; reflexivity|].
  destruct (@sleeps_follow_the_generator nat WRITE_ACCESS 0
              [lost_turn; commit_turn] idle_world retried_outcome H)
    as (n & Hn & Hnone & Hsome & Hret & _).
  destruct n as [|[|n]].
  - exfalso. cbn [firstn] in Hsome. vm_compute in Hsome. discriminate.
  - split; [exact Hnone|].
    exact (Hret 7%nat ltac:(vm_compute; reflexivity)).
  - exfalso. cbn in Hn. lia.
Defined.

Lemma managed_success_commits_and_returns_witness :
  open_attempt WRITE_ACCESS commit_turn idle_world =
    (fst (open_attempt WRITE_ACCESS commit_turn idle_world), Ret tt) /\
  tc_ret (at_unit_of_work commit_turn) = Ret 7%nat /\
  exists w',
    retry_loop WRITE_ACCESS 0 [commit_turn; keyerror_turn]
      [SessionExpired "stale"] sample_delays idle_world =
      Some (w', Ret 7%nat) /\
    log w' =
      (log (fst (open_attempt WRITE_ACCESS commit_turn idle_world)) ++
       [EvUnitOfWork; EvCommit; EvTxClose])%list /\
    (tc_fired (at_commit commit_turn) = true ->
     _transaction (self w') = None /\
     _connection (self w') = None /\
     _bookmarks (self w') =
       collected (tc_bookmark (at_commit commit_turn))
         (_bookmarks
            (self (fst (open_attempt WRITE_ACCESS commit_turn
                          idle_world))))).
Proof.
  split; [reflexivity|]. split; [reflexivity|].
  apply (@managed_success_commits_and_returns nat WRITE_ACCESS 0 commit_turn
           [keyerror_turn] [SessionExpired "stale"] sample_delays idle_world
           (fst (open_attempt WRITE_ACCESS commit_turn idle_world))
           {| tx_id := 2; tx_closed := false; tx_bookmark := None |}
           7%nat (Some "bm1")); reflexivity.
Defined.

Lemma commit_error_skips_rollback_witness :
  open_attempt WRITE_ACCESS
    (commit_failing_turn (ServiceUnavailable "gone")) idle_world =
    (fst (open_attempt WRITE_ACCESS
            (commit_failing_turn (ServiceUnavailable "gone")) idle_world),
     Ret tt) /\
  tc_ret (at_commit (commit_failing_turn (ServiceUnavailable "gone"))) =
    Raise (ServiceUnavailable "gone") /\
  (at_clock (commit_failing_turn (ServiceUnavailable "gone")) - 0 <=
   max_transaction_retry_time sample_config)%Q /\
  (exists w',
     attempt WRITE_ACCESS (commit_failing_turn (ServiceUnavailable "gone"))
       idle_world = (w', Raise (ServiceUnavailable "gone")) /\
     log w' =
       (log (fst (open_attempt WRITE_ACCESS
                    (commit_failing_turn (ServiceUnavailable "gone"))
                    idle_world)) ++
        [EvUnitOfWork; EvCommit; EvTxClose])%list) /\
  calls (retry_loop WRITE_ACCESS 0
           [commit_failing_turn (ServiceUnavailable "gone"); commit_turn]
           [] sample_delays idle_world) =
    ["acquire"; "_begin"; "unit_of_work"; "commit"; "_close";
     "warning"; "sleep";
     "acquire"; "_begin"; "unit_of_work"; "commit"; "_close"].
Proof.
  assert (Hb : (at_clock (commit_failing_turn (ServiceUnavailable "gone"))
                - 0 <= max_transaction_retry_time sample_config)%Q)
    by (vm_compute; discriminate).
  split; [reflexivity|]. split; [reflexivity|]. split; [exact Hb|].
  destruct (@commit_error_skips_rollback nat WRITE_ACCESS
              (commit_failing_turn (ServiceUnavailable "gone")) idle_world
              (fst (open_attempt WRITE_ACCESS
                      (commit_failing_turn (ServiceUnavailable "gone"))
                      idle_world))
              {| tx_id := 1; tx_closed := false; tx_bookmark := None |}
              7%nat (ServiceUnavailable "gone")
              eq_refl eq_refl eq_refl eq_refl eq_refl eq_refl)
    as (w' & Ha & Hl & _ & Hretry).
  split; [exists w'; split; [exact Ha|exact Hl]|].
  assert (Hw : w' =
               fst (attempt WRITE_ACCESS
                      (commit_failing_turn (ServiceUnavailable "gone"))
                      idle_world))
    by (rewrite Ha; reflexivity).
  subst w'.
  rewrite (Hretry 0 [commit_turn] [] sample_delays eq_refl Hb eq_refl
             eq_refl eq_refl).
  vm_compute. reflexivity.
Defined.

Lemma cleanup_errors_replace_the_outcome_witness :
  tc_ret (at_unit_of_work messy_turn) = Raise (OtherException "KeyError") /\
  tc_ret (at_rollback messy_turn) = Raise (ServiceUnavailable "gone") /\
  snd (work
         (Some {| tx_id := 1; tx_closed := false; tx_bookmark := None |})
         messy_turn in_transaction) = Raise (ServiceUnavailable "gone").
Proof.
  split; [reflexivity|]. split; [reflexivity|].
  apply (proj2 (@cleanup_errors_replace_the_outcome nat
                  {| tx_id := 1; tx_closed := false; tx_bookmark := None |}
                  messy_turn in_transaction)
           (OtherException "KeyError") (ServiceUnavailable "gone"));
    reflexivity.
Defined.

Lemma recorded_iff_retriable_witness :
  record_error [ServiceUnavailable "gone"] (SessionExpired "stale") =
    Some [ServiceUnavailable "gone"; SessionExpired "stale"].
Proof.
  apply (proj2 (@recorded_iff_retriable [ServiceUnavailable "gone"]
                  (SessionExpired "stale"))).
  right. left. exists "stale". reflexivity.
Defined.

(** ** The delays *)

Lemma advanced_ignores_draws (k : nat) :
  forall g rs rs', advanced g rs k = advanced g rs' k.
Proof.
  induction k as [|k IH]; intros g rs rs'; [reflexivity|].
  cbn [advanced]. apply IH.
Qed.

Lemma emitted_from_state (k : nat) :
  forall g rs, emitted g rs k = fst (next (advanced g rs k) (rs k)).
Proof.
  induction k as [|k IH]; intros g rs; [reflexivity|].
  cbn [emitted advanced]. now rewrite IH.
Qed.

(** X27.  The jitter does not compound.  The state of the generator after
    [k] values does not depend on the draws of [random()]: its delay is the
    initial delay multiplied [k] times by the multiplier, in binary64, and
    its two parameters are unchanged.  The [k]-th value is computed from
    that state and the [k]-th draw alone, so two runs whose [k]-th draws are
    equal yield the same [k]-th value whatever the earlier draws were. *)
Theorem jitter_does_not_compound (g : DelayGenerator)
    (rs rs' : nat -> float) (k : nat) :
  advanced g rs k = advanced g rs' k /\
  multiplier (advanced g rs k) = multiplier g /\
  jitter_factor (advanced g rs k) = jitter_factor g /\
  delay (advanced g rs (S k)) =
    (delay (advanced g rs k) * multiplier g)%float /\
  emitted g rs k = fst (next (advanced g rs k) (rs k)) /\
  (rs k = rs' k -> emitted g rs k = emitted g rs' k).
Proof.
  assert (Hm : forall k g rs, multiplier (advanced g rs k) = multiplier g).
  { clear. induction k as [|k IH]; intros g rs; [reflexivity|].
    cbn [advanced]. now rewrite IH. }
  assert (Hj : forall k g rs,
            jitter_factor (advanced g rs k) = jitter_factor g).
  { clear. induction k as [|k IH]; intros g rs; [reflexivity|].
    cbn [advanced]. now rewrite IH. }
  assert (Hd : forall k g rs,
            delay (advanced g rs (S k)) =
              (delay (advanced g rs k) * multiplier g)%float).
  { clear - Hm. induction k as [|k IH]; intros g rs; [reflexivity|].
    change (advanced g rs (S (S k)))
      with (advanced (snd (next g (rs O))) (fun i => rs (S i)) (S k)).
    rewrite IH. reflexivity. }
  split; [apply advanced_ignores_draws|]. split; [apply Hm|].
  split; [apply Hj|]. split; [apply Hd|].
  split; [apply emitted_from_state|].
  intros H. rewrite !emitted_from_state, H.
  now rewrite (advanced_ignores_draws k g rs rs').
Qed.

Lemma jitter_does_not_compound_witness :
  halves 2 = skewed 2 /\
  halves 0 <> skewed 0 /\
  emitted sample_delays halves 2 = emitted sample_delays skewed 2.
Proof.
  split; [reflexivity|]. split; [vm_compute; discriminate|].
  apply (@jitter_does_not_compound sample_delays halves skewed 2).
  reflexivity.
Defined.
